(** * UserEvents gateway: circuit breaker, retry loop and fan-out aggregation

    A shallow embedding of [utils/upstream.js] (the breaker state, the
    half-open gate and the retry loop of [upstream]) and of the
    [/getEventsByUserId/:id] handler of [services/index.js].

    JavaScript runs the body of an [async] function synchronously up to the
    next [await]; other calls can only run at those suspension points.  The
    embedding follows that: every synchronous segment of [upstream] is one
    Rocq function from the breaker state to the breaker state, and a call is
    a small state machine whose states are the [await] points.  The
    [fastify] instance a call is given is a parameter of that machine:
    [upstream] reads [fastify.httpErrors] of it, which the instance of
    [services/index.js] does not have. *)

From Stdlib Require Import ZArith List String Bool Lia.
From stdpp Require Import base list strings pretty gmap.
Import ListNotations.

(** ** JavaScript values returned by [res.json()] *)

Module Js.

(** Parsed JSON, plus [undefined] (what an [async] function returns when
    control falls off its end).  Numbers are kept as integers: the only
    thing the code asks of a number is whether it is falsy, that is zero. *)
#[warnings="-register-all"] Inductive Value :=
| VUndefined
| VNull
| VBool (b : bool)
| VNum (n : Z)
| VStr (s : string)
| VArr (items : list Value)
| VObj (fields : list (string * Value)).

(** [Boolean(v)] *)
Definition truthy (v : Value) : bool :=
  match v with
  | VUndefined | VNull => false
  | VBool b => b
  | VNum n => negb (n =? 0)%Z
  | VStr s => negb (String.eqb s EmptyString)
  | VArr _ | VObj _ => true
  end.

(** [Array.prototype.flat()] with the default depth 1: an element that is
    an array is replaced by its elements, any other element is kept. *)
Definition flat (l : list Value) : list Value :=
  List.concat (List.map (fun v => match v with VArr items => items | _ => [v] end) l).

(** [Math.ceil(x / d)] for an integer [x] and a positive integer [d]. *)
Definition ceil_div (x d : Z) : Z := (- ((- x) / d))%Z.

(** An error object as the [catch] clause of [upstream] inspects it. *)
Record Error := {
  name : string;
  statusCode : option Z;
  message : string;
  headers : list (string * Z)
}.

(** Lookup of a header in [err.headers]. *)
Fixpoint header (k : string) (h : list (string * Z)) : option Z :=
  match h with
  | [] => None
  | (k', v) :: h' => if String.eqb k k' then Some v else header k h'
  end.

(** [fastify.httpErrors.serviceUnavailable(msg)] of @fastify/sensible: an
    error whose status code is 503. *)
Definition serviceUnavailable (msg : string) : Error :=
  {| name := "ServiceUnavailableError"; statusCode := Some 503%Z;
     message := msg; headers := [] |}.

(** [err.headers = { 'Retry-After': v }] *)
Definition withRetryAfter (v : Z) (e : Error) : Error :=
  {| name := name e; statusCode := statusCode e; message := message e;
     headers := [("Retry-After", v)] |}.

End Js.

(** ** [utils/upstream.js] *)

Module Upstream.
Import Js.
Local Open Scope Z_scope.

Definition MAX_RETRIES : Z := 2.
Definition BACKOFF_FACTOR : Z := 2.
Definition FAILURE_WINDOW_MS : Z := 30000.
Definition FAILURE_THRESHOLD : Z := 3.
Definition OPEN_COOLDOWN_MS : Z := 30000.
Definition HALF_OPEN_PROBE_INTERVAL_MS : Z := 5000.

Inductive STATE := CLOSED | OPEN | HALF_OPEN.

Definition STATE_eqb (a b : STATE) : bool :=
  match a, b with
  | CLOSED, CLOSED | OPEN, OPEN | HALF_OPEN, HALF_OPEN => true
  | _, _ => false
  end.

(** The module-level variables [state], [failureTimes], [openUntil],
    [nextProbeAt], [probeInFlight]: one breaker per process. *)
Record Breaker := mkBreaker {
  state : STATE;
  failureTimes : list Z;
  openUntil : Z;
  nextProbeAt : Z;
  probeInFlight : bool
}.

Definition initial : Breaker := mkBreaker CLOSED [] 0 0 false.

Definition set_state (s : STATE) (b : Breaker) : Breaker :=
  mkBreaker s (failureTimes b) (openUntil b) (nextProbeAt b) (probeInFlight b).
Definition set_failureTimes (l : list Z) (b : Breaker) : Breaker :=
  mkBreaker (state b) l (openUntil b) (nextProbeAt b) (probeInFlight b).
Definition set_openUntil (t : Z) (b : Breaker) : Breaker :=
  mkBreaker (state b) (failureTimes b) t (nextProbeAt b) (probeInFlight b).
Definition set_nextProbeAt (t : Z) (b : Breaker) : Breaker :=
  mkBreaker (state b) (failureTimes b) (openUntil b) t (probeInFlight b).
Definition set_probeInFlight (p : bool) (b : Breaker) : Breaker :=
  mkBreaker (state b) (failureTimes b) (openUntil b) (nextProbeAt b) p.

(** [pruneFailures(ts)] *)
Definition pruneFailures (ts : Z) (b : Breaker) : Breaker :=
  let cutoff := ts - FAILURE_WINDOW_MS in
  set_failureTimes (List.filter (fun t => cutoff <=? t) (failureTimes b)) b.

(** [recordFailure(ts)] *)
Definition recordFailure (ts : Z) (b : Breaker) : Breaker :=
  let b1 := pruneFailures ts b in
  let b2 := set_failureTimes (failureTimes b1 ++ [ts]) b1 in
  if STATE_eqb (state b2) CLOSED
     && (FAILURE_THRESHOLD <=? Z.of_nat (length (failureTimes b2)))
  then set_openUntil (ts + OPEN_COOLDOWN_MS) (set_state OPEN b2)
  else b2.

(** [recordSuccess()] *)
Definition recordSuccess (b : Breaker) : Breaker :=
  set_probeInFlight false
    (set_nextProbeAt 0 (set_openUntil 0 (set_state CLOSED (set_failureTimes [] b)))).

(** *** One call of [upstream] as a machine over its [await] points *)

(** The successive readings of [Date.now()] inside one synchronous segment:
    [clk 0] is the first call of [now()] in the segment, [clk 1] the second. *)
Definition Clock := nat -> Z.

(** The clock of a segment that runs within one millisecond. *)
Definition always (t : Z) : Clock := fun _ => t.

(** What a segment does besides changing the breaker. *)
Inductive Effect :=
| Fetch (attempt : Z)        (* [fetch(base + path, ...)] is started *)
| Sleep (ms : Z)             (* [sleep(delay)] is started *)
| ReportSuccess              (* the success branch: [recordSuccess()] or [pruneFailures()] *)
| ReportFailure (ts : Z).    (* [recordFailure()] *)

(** Where a call is suspended, or how it ended. *)
Inductive Local :=
| AwaitFetch (attempt : Z)             (* [await fetch(...)] *)
| AwaitText (attempt : Z) (status : Z) (* [await res.text().catch(() => '')] *)
| AwaitJson (attempt : Z)              (* [return await res.json()] *)
| AwaitSleep (attempt : Z)             (* [await sleep(delay)] *)
| Returned (v : Value)
| Thrown (e : Error).

(** What wakes a suspended call up. *)
Inductive Resumption :=
| FetchResponse (status : Z) (* [fetch] resolves with a response *)
| FetchAborted               (* the timer fired [controller.abort()]: an AbortError *)
| FetchFailed                (* [fetch] rejects with a network error, a TypeError *)
| TextSettled                (* [res.text().catch(() => '')] settles *)
| JsonParsed (v : Value)     (* [res.json()] resolves *)
| JsonFailed                 (* [res.json()] rejects: the body is not JSON *)
| SleepOver.                 (* the [setTimeout] of [sleep] fires *)

Definition Segment : Type := Breaker * Local * list Effect.

(** How an attempt can fail, and the error the [catch (err)] clause then
    receives. *)
Inductive Failure :=
| TimedOut                (* the per-attempt timer aborted the fetch *)
| NetworkDown             (* the fetch was rejected for another reason *)
| BadStatus (status : Z)  (* a response with [!res.ok] *)
| BadBody.                (* [res.json()] rejected *)

Definition caught (f : Failure) : Error :=
  match f with
  | TimedOut =>
    {| name := "AbortError"; statusCode := None;
       message := "This operation was aborted"; headers := [] |}
  | NetworkDown =>
    {| name := "TypeError"; statusCode := None; message := "fetch failed"; headers := [] |}
  | BadStatus status =>
    (* [const e = new Error(...); e.statusCode = res.status] *)
    {| name := "Error"; statusCode := Some status; message := "Upstream"; headers := [] |}
  | BadBody =>
    {| name := "SyntaxError"; statusCode := None;
       message := "Unexpected end of JSON input"; headers := [] |}
  end.

(** [res.ok] *)
Definition res_ok (status : Z) : bool := (200 <=? status) && (status <=? 299).

(** [err.name === 'AbortError' || (err.statusCode && err.statusCode >= 500)] *)
Definition transient (err : Error) : bool :=
  String.eqb (name err) "AbortError"
  || match statusCode err with
     | Some s => negb (s =? 0) && (500 <=? s)
     | None => false
     end.

(** *** The [fastify] argument of [upstream]

    [upstream] uses two things of the instance it is given:
    [fastify.log], which every instance has, and [fastify.httpErrors],
    which is there only once the plugin @fastify/sensible has been
    registered on the instance and is [undefined] otherwise. *)
Class Fastify := { httpErrors : option (string -> Error) }.

(** An instance on which @fastify/sensible is registered. *)
Definition withSensible : Fastify := {| httpErrors := Some serviceUnavailable |}.

(** [require('fastify')({ logger: true })]: the instance that
    [services/index.js] creates and hands to every call of [upstream].  No
    plugin is registered on it. *)
Definition indexFastify : Fastify := {| httpErrors := None |}.

(** What reading [.serviceUnavailable] of [undefined] throws. *)
Definition undefinedHttpErrors : Error :=
  {| name := "TypeError"; statusCode := None;
     message := "Cannot read properties of undefined (reading 'serviceUnavailable')";
     headers := [] |}.

Section WithFastify.
Context {fastify : Fastify}.

(** The error that leaves the three statements
    [const err = fastify.httpErrors.serviceUnavailable(msg);
     err.headers = { 'Retry-After': v }; throw err]:
    without [httpErrors] the first of them throws and the other two do not
    run. *)
Definition throwUnavailable (msg : string) (v : Z) : Error :=
  match httpErrors with
  | Some make => withRetryAfter v (make msg)
  | None => undefinedHttpErrors
  end.

(** The breaker short-circuit at the top of [upstream]: [None] lets the
    call through, [Some e] is the error thrown. *)
Definition gate (ts : Z) (b : Breaker) : Breaker * option Error :=
  let '(b1, thrown) :=
    if STATE_eqb (state b) OPEN then
      if openUntil b <=? ts
      then (set_nextProbeAt ts (set_state HALF_OPEN b), None)
      else (b, Some (throwUnavailable "Upstream circuit open"
                       (ceil_div (openUntil b - ts) 1000)))
    else (b, None) in
  match thrown with
  | Some e => (b1, Some e)
  | None =>
    if STATE_eqb (state b1) HALF_OPEN then
      if probeInFlight b1 || (ts <? nextProbeAt b1)
      then (b1, Some (throwUnavailable "Upstream circuit half-open"
                        (ceil_div (nextProbeAt b1 - ts) 1000)))
      else (set_nextProbeAt (ts + HALF_OPEN_PROBE_INTERVAL_MS)
              (set_probeInFlight true b1), None)
    else (b1, None)
  end.

(** The [finally] clause of the loop body. *)
Definition finallyBlock (b : Breaker) : Breaker :=
  if STATE_eqb (state b) HALF_OPEN then set_probeInFlight false b else b.

(** The loop test [attempt <= MAX_RETRIES + 1] and the body up to
    [await fetch]; falling off the loop returns [undefined]. *)
Definition loopHead (attempt : Z) (b : Breaker) : Segment :=
  if attempt <=? MAX_RETRIES + 1
  then (b, AwaitFetch attempt, [Fetch attempt])
  else (b, Returned VUndefined, []).

(** The [catch (err)] clause, followed by [finally] when it throws. *)
Definition catchBlock (clk : Clock) (attempt : Z) (err : Error) (b : Breaker) : Segment :=
  let lastAttempt := MAX_RETRIES <? attempt in
  if negb (transient err) || lastAttempt then
    let b1 := recordFailure (clk 0%nat) b in
    let b2 :=
      if STATE_eqb (state b1) HALF_OPEN
      then set_openUntil (clk 1%nat + OPEN_COOLDOWN_MS)
             (set_probeInFlight false (set_state OPEN b1))
      else b1 in
    let e := throwUnavailable "Upstream service unavailable"
               (ceil_div OPEN_COOLDOWN_MS 1000) in
    (finallyBlock b2, Thrown e, [ReportFailure (clk 0%nat)])
  else
    (b, AwaitSleep attempt, [Sleep (100 * BACKOFF_FACTOR ^ (attempt - 1))]).

(** The first segment of [upstream]: [const ts = now()], the gate, and the
    first iteration up to [await fetch]. *)
Definition start (clk : Clock) (b : Breaker) : Segment :=
  match gate (clk 0%nat) b with
  | (b', Some e) => (b', Thrown e, [])
  | (b', None) => loopHead 1 b'
  end.

(** The segment a suspended call runs when it is woken up; [None] when the
    resumption is not the one the call is waiting for. *)
Definition resume (clk : Clock) (r : Resumption) (l : Local) (b : Breaker)
  : option Segment :=
  match l, r with
  | AwaitFetch n, FetchResponse status =>
    if res_ok status then
      let b' := if STATE_eqb (state b) HALF_OPEN
                then recordSuccess b
                else pruneFailures (clk 0%nat) b in
      Some (b', AwaitJson n, [ReportSuccess])
    else Some (b, AwaitText n status, [])
  | AwaitFetch n, FetchAborted => Some (catchBlock clk n (caught TimedOut) b)
  | AwaitFetch n, FetchFailed => Some (catchBlock clk n (caught NetworkDown) b)
  | AwaitText n status, TextSettled => Some (catchBlock clk n (caught (BadStatus status)) b)
  | AwaitJson n, JsonParsed v => Some (finallyBlock b, Returned v, [])
  | AwaitJson n, JsonFailed => Some (catchBlock clk n (caught BadBody) b)
  | AwaitSleep n, SleepOver => Some (loopHead (n + 1) (finallyBlock b))
  | _, _ => None
  end.

(** A call run on its own: the breaker is touched by no other call between
    its segments.  The script gives, for each wake-up, the clock of the
    segment and the resumption; the run stops at the first resumption the
    call is not waiting for. *)
Fixpoint run (script : list (Clock * Resumption)) (sg : Segment) : Segment :=
  match script with
  | [] => sg
  | (clk, r) :: rest =>
    let '(b, l, es) := sg in
    match resume clk r l b with
    | Some (b', l', es') => run rest (b', l', es ++ es')
    | None => sg
    end
  end.

(** [upstream(path, init, fastify)] from its first segment on. *)
Definition upstream (clk : Clock) (script : list (Clock * Resumption)) (b : Breaker)
  : Segment :=
  run script (start clk b).

(** *** Interleaved calls on the one breaker

    The event loop runs one segment at a time.  A system is the breaker
    and the table of the calls made so far; a call's identifier is its
    position in the table. *)

(** [probe] records that the call passed the half-open gate (lines
    [probeInFlight = true; nextProbeAt = ...]); [startedAt] is its [ts]. *)
Record Call := mkCall {
  probe : bool;
  startedAt : Z;
  cont : Local
}.

Record System := mkSystem {
  breaker : Breaker;
  calls : list Call;
  log : list (nat * Effect)
}.

Inductive Event :=
| Arrive (clk : Clock)                            (* a new call of [upstream] *)
| Wake (id : nat) (clk : Clock) (r : Resumption). (* a suspended call resumes *)

Definition boot : System := mkSystem initial [] [].

(** After the first segment: the call was not thrown out and the breaker
    is [HALF_OPEN], so the call ran [probeInFlight = true]. *)
Definition passedHalfOpenGate (b : Breaker) (l : Local) : bool :=
  match l with
  | Thrown _ => false
  | _ => STATE_eqb (state b) HALF_OPEN
  end.

Definition step (ev : Event) (s : System) : option System :=
  match ev with
  | Arrive clk =>
    let '(b', l, es) := start clk (breaker s) in
    let id := length (calls s) in
    Some (mkSystem b'
            (calls s ++ [mkCall (passedHalfOpenGate b' l) (clk 0%nat) l])
            (log s ++ List.map (pair id) es))
  | Wake id clk r =>
    match calls s !! id with
    | None => None
    | Some c =>
      match resume clk r (cont c) (breaker s) with
      | None => None
      | Some (b', l, es) =>
        Some (mkSystem b'
                (<[id := mkCall (probe c) (startedAt c) l]> (calls s))
                (log s ++ List.map (pair id) es))
      end
    end
  end.

Fixpoint exec (evs : list Event) (s : System) : option System :=
  match evs with
  | [] => Some s
  | ev :: rest =>
    match step ev s with
    | Some s' => exec rest s'
    | None => None
    end
  end.

(** A probe is outstanding while one of its attempts is in flight. *)
Definition outstanding (c : Call) : bool :=
  probe c && match cont c with AwaitFetch _ => true | _ => false end.

Definition outstandingProbes (s : System) : nat :=
  length (List.filter outstanding (calls s)).

(** Reading the effects of a call. *)
Definition isSuccess (e : Effect) : bool :=
  match e with ReportSuccess => true | _ => false end.
Definition isFailure (e : Effect) : bool :=
  match e with ReportFailure _ => true | _ => false end.
Definition sleeps (es : list Effect) : list Z :=
  List.concat (List.map (fun e => match e with Sleep d => [d] | _ => [] end) es).

(** *** Vocabulary of the statements below *)

(** The error thrown by the [OPEN] branch of the gate when [remaining]
    milliseconds of the cool-down are left. *)
Definition openRejection (remaining : Z) : Error :=
  throwUnavailable "Upstream circuit open" (ceil_div remaining 1000).

(** An event that is not the arrival of a call at or after [deadline]. *)
Definition beforeDeadline (deadline : Z) (ev : Event) : Prop :=
  match ev with
  | Arrive clk => clk 0%nat < deadline
  | Wake _ _ _ => True
  end.

(** Successive calls of [recordFailure], oldest timestamp first. *)
Definition recordFailures (tss : list Z) (b : Breaker) : Breaker :=
  fold_left (fun b t => recordFailure t b) tss b.

(** The error thrown on a final failure. *)
Definition unavailable : Error :=
  throwUnavailable "Upstream service unavailable" (ceil_div OPEN_COOLDOWN_MS 1000).

(** The wake-ups of an attempt that fails by [f], up to the [catch]
    clause. *)
Definition attemptFails (f : Failure) (c1 c2 : Clock) : list (Clock * Resumption) :=
  match f with
  | TimedOut => [(c1, FetchAborted)]
  | NetworkDown => [(c1, FetchFailed)]
  | BadStatus status => [(c1, FetchResponse status); (c2, TextSettled)]
  | BadBody => [(c1, FetchResponse 200); (c2, JsonFailed)]
  end.

(** The number of success and of failure reports among the effects. *)
Definition successes (es : list Effect) : nat := length (List.filter isSuccess es).
Definition failures (es : list Effect) : nat := length (List.filter isFailure es).

(** What the effects of a call hold of reports, by where the call is;
    [clean] says that no [res.json()] has rejected so far. *)
Definition reportInvariant (clean : bool) (l : Local) (es : list Effect) : Prop :=
  match l with
  | AwaitFetch _ | AwaitText _ _ | AwaitSleep _ =>
    successes es = 0%nat /\ failures es = 0%nat
  | AwaitJson _ => successes es = 1%nat /\ failures es = 0%nat
  | Returned _ => (successes es <= 1)%nat /\ failures es = 0%nat
  | Thrown _ =>
    (successes es <= 1)%nat /\ (failures es <= 1)%nat
    /\ (clean = true -> (successes es + failures es <= 1)%nat)
  end.

(** The breaker never has [probeInFlight] set outside [HALF_OPEN]. *)
Definition flagOnlyHalfOpen (b : Breaker) : Prop :=
  probeInFlight b = true -> state b = HALF_OPEN.

(** Three calls, each answered [400 Bad Request]: three failures within
    15 ms. *)
Definition tripTrace : list Event :=
  [ Arrive (always 0); Arrive (always 1); Arrive (always 2);
    Wake 0 (always 10) (FetchResponse 400); Wake 0 (always 11) TextSettled;
    Wake 1 (always 12) (FetchResponse 400); Wake 1 (always 13) TextSettled;
    Wake 2 (always 14) (FetchResponse 400); Wake 2 (always 15) TextSettled ].

(** After [tripTrace], a call at 31000 ms whose first two attempts time
    out after 2000 ms each, and a second call at 36000 ms, during the third
    attempt of the first. *)
Definition twoProbesTrace : list Event :=
  tripTrace ++
  [ Arrive (always 31000);
    Wake 3 (always 33000) FetchAborted; Wake 3 (always 33100) SleepOver;
    Wake 3 (always 35100) FetchAborted; Wake 3 (always 35300) SleepOver;
    Arrive (always 36000) ].

End WithFastify.

End Upstream.

(** ** [services/index.js]: the handler of [/getEventsByUserId/:id] *)

Module Routes.
Import Js.

(** A settled promise. *)
Inductive Outcome (A : Type) :=
| Fulfilled (v : A)
| Rejected (e : Error).
Arguments Fulfilled {A} v.
Arguments Rejected {A} e.

Definition smallEventSize : nat := 50.

(** An event identifier, as the template literal and [join] print it. *)
Definition Id := string.

(** [a.slice(i, j)] for [0 <= i <= j]. *)
Definition slice {A} (i j : nat) (a : list A) : list A :=
  firstn (j - i) (skipn i a).

(** [for (let i = 0; i < a.length; i += size) chunked.push(a.slice(i, i + size))],
    from the index [i] on; the fuel bounds the number of iterations. *)
Fixpoint chunkLoop {A} (size fuel i : nat) (a : list A) : list (list A) :=
  match fuel with
  | O => []
  | S fuel' =>
    if i <? length a
    then slice i (i + size) a :: chunkLoop size fuel' (i + size) a
    else []
  end.

(** The loop of the handler: [size] is positive, so [length a] iterations
    are enough. *)
Definition chunked {A} (a : list A) : list (list A) :=
  chunkLoop smallEventSize (length a) 0 a.

(** [Promise.all]: the array of the values when every promise fulfils, a
    rejection as soon as one rejects.  Which rejection comes first depends
    on timing; the leftmost stands for it. *)
Fixpoint promiseAll {A} (ps : list (Outcome A)) : Outcome (list A) :=
  match ps with
  | [] => Fulfilled []
  | Rejected e :: _ => Rejected e
  | Fulfilled v :: rest =>
    match promiseAll rest with
    | Fulfilled vs => Fulfilled (v :: vs)
    | Rejected e => Rejected e
    end
  end.

(** [r.status === 'fulfilled'] and [r.value] on the records of
    [Promise.allSettled]. *)
Definition fulfilled {A} (r : Outcome A) : bool :=
  match r with Fulfilled _ => true | Rejected _ => false end.
Definition value (r : Outcome Value) : Value :=
  match r with Fulfilled v => v | Rejected _ => VUndefined end.

Definition batchPath (batch : list Id) : string :=
  "/getEventsByIds?ids=" ++ String.concat "," batch.
Definition itemPath (eid : Id) : string :=
  "/getEventById/" ++ eid.

(** The handler after the user lookup, on [user.events].  [up i path] is
    how the call of [upstream] made by the [i]-th invocation of the [map]
    callback settles.  The result pairs the paths requested, in the order
    [map] issues them (all before the first [await]), with what the handler
    returns or throws. *)
Definition getEventsByUserId (events : list Id) (up : nat -> string -> Outcome Value)
  : list string * Outcome (list Value) :=
  if (length events =? 0)%nat then ([], Fulfilled [])
  else if (smallEventSize <? length events)%nat then
    let paths := List.map batchPath (chunked events) in
    let batchedResults := promiseAll (imap up paths) in
    (paths,
     match batchedResults with
     | Fulfilled rs => Fulfilled (List.filter truthy (flat rs))
     | Rejected e => Rejected e
     end)
  else
    let paths := List.map itemPath events in
    let results := imap up paths in
    (paths, Fulfilled (List.map value (List.filter fulfilled results))).

(** *** Vocabulary of the statements below *)

(** The sizes of the slices the loop cuts out of [rem] remaining elements. *)
Fixpoint chunkSizes (size fuel rem : nat) : list nat :=
  match fuel with
  | O => []
  | S fuel' =>
    if (0 <? rem)%nat
    then Nat.min size rem :: chunkSizes size fuel' (rem - size)
    else []
  end.

(** The payload of a call that succeeded. *)
Definition payload (r : Outcome Value) : option Value :=
  match r with Fulfilled v => Some v | Rejected _ => None end.

(** The identifiers ["1"; ...; "51"]; the error in which a call of
    [upstream] made by this file ends on a final failure; and an upstream
    whose second batched call ends in it while the first returns one
    event. *)
Definition fiftyOneEvents : list Id := List.map (fun n : nat => pretty n) (seq 1 51).
Definition finalFailure : Error := Upstream.unavailable (fastify := Upstream.indexFastify).
Definition secondCallFails (i : nat) (path : string) : Outcome Value :=
  if (i =? 1)%nat then Rejected finalFailure
  else Fulfilled (VArr [VObj [("id", VNum 1)]]).

End Routes.

(** ** [utils/upstream.js]: further vocabulary *)

Module UpstreamCalls.
Import Js Upstream.
Local Open Scope Z_scope.

Definition isFetch (e : Effect) : bool :=
  match e with Fetch _ => true | _ => false end.

(** The number of fetches among the effects. *)
Definition fetches (es : list Effect) : nat := length (List.filter isFetch es).

Definition finished (l : Local) : bool :=
  match l with Returned _ | Thrown _ => true | _ => false end.

Section WithFastify.
Context {fastify : Fastify}.

(** A call run on its own in which every wake-up is the one the call is
    waiting for; [None] otherwise. *)
Fixpoint runStrict (script : list (Clock * Resumption)) (sg : Segment) : option Segment :=
  match script with
  | [] => Some sg
  | (clk, r) :: rest =>
    let '(b, l, es) := sg in
    match resume clk r l b with
    | Some (b', l', es') => runStrict rest (b', l', es ++ es')
    | None => None
    end
  end.

End WithFastify.

(** The number of wake-ups a call can still take, at most. *)
Definition wakeUpsLeft (l : Local) : Z :=
  match l with
  | AwaitFetch n => 3 * (3 - n) + 2
  | AwaitText n _ => 3 * (3 - n) + 1
  | AwaitJson n => 1
  | AwaitSleep n => 3 * (3 - n)
  | Returned _ | Thrown _ => 0
  end.

(** Where a call is, against what it has fetched and slept so far. *)
Definition attemptInvariant (l : Local) (es : list Effect) : Prop :=
  match l with
  | AwaitFetch n | AwaitText n _ | AwaitJson n =>
    (n = 1 /\ fetches es = 1%nat /\ sleeps es = [])
    \/ (n = 2 /\ fetches es = 2%nat /\ sleeps es = [100])
    \/ (n = 3 /\ fetches es = 3%nat /\ sleeps es = [100; 200])
  | AwaitSleep n =>
    (n = 1 /\ fetches es = 1%nat /\ sleeps es = [100])
    \/ (n = 2 /\ fetches es = 2%nat /\ sleeps es = [100; 200])
  | Returned _ | Thrown _ =>
    (fetches es <= 3)%nat
    /\ (sleeps es = [] \/ sleeps es = [100] \/ sleeps es = [100; 200])
  end.

(** A closed breaker holds fewer failures than the threshold. *)
Definition closedBound (b : Breaker) : Prop :=
  state b = CLOSED -> (length (failureTimes b) < 3)%nat.

End UpstreamCalls.

(** ** [services/index.js]: the routes around the fan-out *)

Module Handlers.
Import Js Routes.

(** [obj.key] on a parsed JSON object: the last of duplicate keys wins,
    a missing key reads [undefined]. *)
Definition field (k : string) (fields : list (string * Value)) : Value :=
  match List.find (fun p => String.eqb k (fst p)) (rev fields) with
  | Some (_, v) => v
  | None => VUndefined
  end.

(** [`${v}`]: the string a template literal makes of a value.  A number
    prints as its decimal digits, which is what JavaScript prints for the
    integers a double holds exactly and prints without an exponent (below
    [2^53]); larger numbers are outside this embedding. *)
Fixpoint toStr (v : Value) : string :=
  match v with
  | VUndefined => "undefined"
  | VNull => "null"
  | VBool true => "true"
  | VBool false => "false"
  | VNum n => pretty n
  | VStr s => s
  | VArr items =>
    String.concat ","
      (List.map (fun x => match x with
                          | VUndefined | VNull => EmptyString
                          | _ => toStr x
                          end) items)
  | VObj _ => "[object Object]"
  end.

(** The string [Array.prototype.join] makes of an element: empty for
    [null] and [undefined]. *)
Definition joinStr (v : Value) : string :=
  match v with
  | VUndefined | VNull => EmptyString
  | _ => toStr v
  end.

(** What [user?.events?.length] and the array methods make of the user:
    nothing to fetch ([!length]), an array of identifiers, or a value with
    a truthy [length] that has no [map] or whose slices have no [join]. *)
Inductive Events :=
| NoEvents
| Items (items : list Value)
| NotAnArray.

Definition eventsOf (user : Value) : Events :=
  let events :=
    match user with
    | VObj fields => field "events" fields
    | _ => VUndefined
    end in
  match events with
  | VArr [] => NoEvents
  | VArr items => Items items
  | VStr s => if String.eqb s EmptyString then NoEvents else NotAnArray
  | VObj fields => if truthy (field "length" fields) then NotAnArray else NoEvents
  | _ => NoEvents
  end.

(** The TypeError of [user.events.map is not a function] and the like. *)
Definition typeError : Error :=
  {| name := "TypeError"; statusCode := None;
     message := "is not a function"; headers := [] |}.

Definition userPath (id : string) : string := "/getUserById/" ++ id.

(** The handler of [/getEventsByUserId/:id]: the paths requested, the user
    lookup first, and what the handler returns or throws.  [lookup] settles
    the user lookup, [up] the calls of the fan-out. *)
Definition getEventsByUserIdRoute (id : string)
  (lookup : string -> Outcome Value) (up : nat -> string -> Outcome Value)
  : list string * Outcome (list Value) :=
  match lookup (userPath id) with
  | Rejected e => ([userPath id], Rejected e)
  | Fulfilled user =>
    match eventsOf user with
    | NoEvents => ([userPath id], Fulfilled [])
    | NotAnArray => ([userPath id], Rejected typeError)
    | Items items =>
      let '(paths, result) :=
        if (smallEventSize <? length items)%nat
        then getEventsByUserId (List.map joinStr items) up
        else getEventsByUserId (List.map toStr items) up in
      (userPath id :: paths, result)
    end
  end.

(** What the handler of [POST /addEvent] does with the reply. *)
Record Reply := mkReply {
  code : option Z;          (* [reply.code(201)] *)
  retryAfter : option Z;    (* [reply.header('Retry-After', ...)] *)
  sent : option Value;      (* [reply.send(data)] *)
  rethrown : option Error   (* [throw err] *)
}.

(** The handler of [POST /addEvent], from the outcome of its call of
    [upstream]. *)
Definition addEvent (outcome : Outcome Value) : Reply :=
  match outcome with
  | Fulfilled data => mkReply (Some 201%Z) None (Some data) None
  | Rejected err =>
    let forwarded :=
      match statusCode err, header "Retry-After" (headers err) with
      | Some code, Some v =>
        if (code =? 503)%Z && negb (v =? 0)%Z then Some v else None
      | _, _ => None
      end in
    mkReply None forwarded None (Some err)
  end.

(** How a call of [upstream] that is over settles its promise. *)
Definition settled (l : Upstream.Local) : option (Outcome Value) :=
  match l with
  | Upstream.Returned v => Some (Fulfilled v)
  | Upstream.Thrown e => Some (Rejected e)
  | _ => None
  end.

End Handlers.

(** ** [services/index.js]: the fan-out on the event loop

    The handler of [/getEventsByUserId/:id] after the user lookup, as a
    machine of its own beside the calls of [upstream] it makes.  Calling
    [upstream] runs the first segment of the call at once, inside the
    segment of the caller, and hands back a promise; the calls then go on
    by the wake-ups of [Upstream.step], in any order, while the handler is
    suspended at its [await]. *)

Module FanOut.
Import Js Upstream Routes.

(** The process: the breaker with the calls of [upstream] made so far,
    and the path of each call the handler made, with the position of the
    call in the table. *)
Record Process := mkProcess {
  sys : System;
  requests : list (nat * string)
}.

(** Where the handler is suspended, on the promises of the calls it
    names, or how it ended. *)
Inductive Handler :=
| AwaitAll (ids : list nat)         (* [await Promise.all(...)] *)
| AwaitAllSettled (ids : list nat)  (* [await Promise.allSettled(...)] *)
| Done (result : Outcome (list Value)).

(** The promise returned by the call [id]: settled or not. *)
Definition promise (s : System) (id : nat) : option (Outcome Value) :=
  match calls s !! id with
  | Some c => Handlers.settled (cont c)
  | None => None
  end.

(** [Promise.allSettled]: settles once every promise has. *)
Definition allSettled (s : System) (ids : list nat) : option (list (Outcome Value)) :=
  mapM (promise s) ids.

(** The leftmost rejection among promises of which some may be pending. *)
Fixpoint rejection (ps : list (option (Outcome Value))) : option Error :=
  match ps with
  | [] => None
  | Some (Rejected e) :: _ => Some e
  | _ :: rest => rejection rest
  end.

(** [Promise.all]: rejects as soon as one promise has, and fulfils once
    every promise has. *)
Definition all (s : System) (ids : list nat) : option (Outcome (list Value)) :=
  match rejection (List.map (promise s) ids) with
  | Some e => Some (Rejected e)
  | None =>
    match allSettled s ids with
    | Some rs => Some (promiseAll rs)
    | None => None
    end
  end.

(** The segment of the handler after its [await]: it runs when the
    awaited promise is settled, and not before. *)
Definition poll (h : Handler) (s : System) : Handler :=
  match h with
  | AwaitAll ids =>
    match all s ids with
    | Some (Fulfilled batchedResults) =>
      Done (Fulfilled (List.filter truthy (flat batchedResults)))
    | Some (Rejected e) => Done (Rejected e)
    | None => h
    end
  | AwaitAllSettled ids =>
    match allSettled s ids with
    | Some results => Done (Fulfilled (List.map value (List.filter fulfilled results)))
    | None => h
    end
  | Done _ => h
  end.

Section WithFastify.
Context {fastify : Fastify}.

(** [upstream(path, {}, fastify)], called: the first segment of the new
    call runs, as for [Arrive], and the promise of the call comes back. *)
Definition callUpstream (clk : Clock) (path : string) (p : Process) : Process * nat :=
  let s := sys p in
  let id := length (calls s) in
  let '(b', l, es) := start clk (breaker s) in
  (mkProcess
     (mkSystem b'
        (calls s ++ [mkCall (passedHalfOpenGate b' l) (clk 0%nat) l])
        (log s ++ List.map (pair id) es))
     (requests p ++ [(id, path)]),
   id).

(** [paths.map(path => upstream(path, {}, fastify))]: the callback runs
    for one element after the other inside the one segment of the handler;
    [clks i] is the clock of its invocation of index [i].  The result is
    the array of the promises. *)
Fixpoint mapUpstream (clks : nat -> Clock) (i : nat) (paths : list string) (p : Process)
  : Process * list nat :=
  match paths with
  | [] => (p, [])
  | path :: rest =>
    let '(p1, id) := callUpstream (clks i) path p in
    let '(p2, ids) := mapUpstream clks (S i) rest p1 in
    (p2, id :: ids)
  end.

(** The handler from the guard on [user.events] to its [await]: one
    segment. *)
Definition fanOut (clks : nat -> Clock) (events : list Id) (p : Process)
  : Process * Handler :=
  if (length events =? 0)%nat then (p, Done (Fulfilled []))
  else if (smallEventSize <? length events)%nat then
    let '(p', ids) := mapUpstream clks 0 (List.map batchPath (chunked events)) p in
    (p', AwaitAll ids)
  else
    let '(p', ids) := mapUpstream clks 0 (List.map itemPath events) p in
    (p', AwaitAllSettled ids).

(** The event loop from there on: the handler runs its last segment as
    soon as the promise it awaits is settled; the events are arrivals of
    other calls and wake-ups of calls, in any order. *)
Fixpoint serve (evs : list Event) (h : Handler) (s : System) : option (Handler * System) :=
  match evs with
  | [] => Some (poll h s, s)
  | ev :: rest =>
    match step ev s with
    | Some s' => serve rest (poll h s) s'
    | None => None
    end
  end.

End WithFastify.

(** *** Vocabulary of the statements below *)

(** A call whose fetch is in flight. *)
Definition inFlight (c : Call) : bool :=
  match cont c with AwaitFetch _ => true | _ => false end.

(** The identifiers ["1"; ...; "120"]. *)
Definition hundredTwentyEvents : list Id := List.map (fun n : nat => pretty n) (seq 1 120).

(** The paths requested, in order. *)
Definition requestedPaths (p : Process) : list string := List.map snd (requests p).

(** Three calls in flight at once, all answered [200]: the third first,
    then the first, then the second. *)
Definition answeredOutOfOrder (v1 v2 v3 : Value) : list Event :=
  [ Wake 2 (always 10) (FetchResponse 200); Wake 0 (always 11) (FetchResponse 200);
    Wake 2 (always 12) (JsonParsed v3); Wake 1 (always 13) (FetchResponse 200);
    Wake 0 (always 14) (JsonParsed v1); Wake 1 (always 15) (JsonParsed v2) ].

(** Three calls in flight at once: the third is answered first, with
    [200] and a body; the second is answered [404]; the first is answered
    last. *)
Definition outOfOrder (v1 v3 : Value) : list Event :=
  [ Wake 2 (always 10) (FetchResponse 200); Wake 1 (always 11) (FetchResponse 404);
    Wake 2 (always 12) (JsonParsed v3); Wake 1 (always 13) TextSettled;
    Wake 0 (always 14) (FetchResponse 200); Wake 0 (always 15) (JsonParsed v1) ].

End FanOut.

(** ** [scripts/seed-events.js] *)

Module Seed.
Import Js Routes.
Local Open Scope Z_scope.

(** *** [generateEvents] *)

(** The object the generator yields; [userId] is [None] where the array
    read [users[...]] gives [undefined]. *)
Record SeedEvent := mkSeedEvent {
  userId : option Z;
  name : string;
  details : string
}.

Definition users : list Z := [1; 2; 3].

(** [`${userId}`] *)
Definition showUserId (u : option Z) : string :=
  match u with Some n => pretty n | None => "undefined" end.

(** The body of the loop for the index [i]; [%] is the remainder. *)
Definition seedEvent (i : Z) : SeedEvent :=
  let userId := users !! Z.to_nat (Z.rem (i - 1) (Z.of_nat (length users))) in
  mkSeedEvent userId
    ("Seeded Event " ++ pretty i)
    ("Auto-generated event #" ++ pretty i ++ " for user " ++ showUserId userId).

(** [for (let i = ...; i <= count; i++) yield ...], from [i] on. *)
Fixpoint generateFrom (fuel : nat) (i count : Z) : list SeedEvent :=
  match fuel with
  | O => []
  | S fuel' =>
    if i <=? count then seedEvent i :: generateFrom fuel' (i + 1) count else []
  end.

(** [Array.from(generateEvents(count))] for an integer [count]: the loop
    runs [count] times at most. *)
Definition generateEvents (count : Z) : list SeedEvent :=
  generateFrom (Z.to_nat count) 1 count.

(** The number of events yielded for the user [u]. *)
Definition eventsFor (u : Z) (evs : list SeedEvent) : nat :=
  length (List.filter (fun ev => match userId ev with
                                 | Some n => n =? u
                                 | None => false
                                 end) evs).

(** *** [postWithRetry] *)

(** How one attempt goes: the timer aborts the fetch, the fetch fails, or
    a response arrives, whose body parses ([Some]) or not. *)
Inductive Attempt :=
| Aborts
| NetworkFails
| Responds (status : Z) (body : option Value).

(** What the attempt makes of it: the value returned, or the error the
    [catch] clause receives. *)
Definition attempted (a : Attempt) : Value + Error :=
  match a with
  | Aborts => inr (Upstream.caught Upstream.TimedOut)
  | NetworkFails => inr (Upstream.caught Upstream.NetworkDown)
  | Responds status body =>
    if Upstream.res_ok status then
      match body with
      | Some v => inl v
      | None => inr (Upstream.caught Upstream.BadBody)
      end
    else
      (* [const err = new Error(`HTTP ...`); err.statusCode = res.status] *)
      inr {| Js.name := "Error"; statusCode := Some status;
             message := "HTTP " ++ pretty status; headers := [] |}
  end.

Inductive Settlement :=
| Resolves (v : Value)
| Rejects (err : Error)
| Waiting.                (* the attempts given are used up *)

(** The loop of [postWithRetry] from [attempt] on, over the attempts as
    they go; [maxRetries] and [backoffBase] are [MAX_RETRIES] and
    [BACKOFF_BASE_MS], read from the environment.  The classification of
    the error is the expression of [upstream]. *)
Fixpoint postLoop (maxRetries backoffBase attempt : Z) (attempts : list Attempt)
  : Settlement * list Upstream.Effect :=
  match attempts with
  | [] =>
    if attempt <=? maxRetries + 1
    then (Waiting, [Upstream.Fetch attempt])
    else (Resolves VUndefined, [])
  | a :: rest =>
    if attempt <=? maxRetries + 1 then
      match attempted a with
      | inl v => (Resolves v, [Upstream.Fetch attempt])
      | inr err =>
        let finalAttempt := maxRetries <? attempt in
        if negb (Upstream.transient err) || finalAttempt
        then (Rejects err, [Upstream.Fetch attempt])
        else
          let backoff := backoffBase * 2 ^ (attempt - 1) in
          let '(r, es) := postLoop maxRetries backoffBase (attempt + 1) rest in
          (r, Upstream.Fetch attempt :: Upstream.Sleep backoff :: es)
      end
    else (Resolves VUndefined, [])
  end.

Definition postWithRetry (maxRetries backoffBase : Z) (attempts : list Attempt)
  : Settlement * list Upstream.Effect :=
  postLoop maxRetries backoffBase 1 attempts.

(** *** [waitUntilReady] *)

Inductive Readiness :=
| Ready                   (* [return true] *)
| NotReady (tried : Z)    (* [throw new Error(`... (tried ${attempt} times)`)] *)
| Probing.                (* the script is used up *)

(** The loop of [waitUntilReady].  For each turn of the loop the script
    gives the reading of [Date.now()] in the loop test and whether the
    probe of that turn got a response with [res.ok].  The result comes
    with the sleeps made. *)
Fixpoint waitLoop (deadline attempt : Z) (script : list (Z * bool)) : Readiness * list Z :=
  match script with
  | [] => (Probing, [])
  | (now, ok) :: rest =>
    if now <? deadline then
      let attempt := attempt + 1 in
      if ok then (Ready, [])
      else
        let backoff := Z.min (200 * attempt) 1000 in
        let '(r, zs) := waitLoop deadline attempt rest in
        (r, backoff :: zs)
    else (NotReady attempt, [])
  end.

(** [waitUntilReady(timeoutMs)], called when [Date.now()] reads [now]. *)
Definition waitUntilReady (now timeoutMs : Z) (script : list (Z * bool))
  : Readiness * list Z :=
  waitLoop (now + timeoutMs) 0 script.

(** *** [runQueue] *)

(** A worker that has been started: its promise is pending, or its
    [then] or [catch] callback has run, or its [finally] callback has run
    too.  The callbacks of one worker run in this order; those of different
    workers interleave freely. *)
Inductive Slot := Running | Settled | Finished.

Definition Slot_eqb (a b : Slot) : bool :=
  match a, b with
  | Running, Running | Settled, Settled | Finished, Finished => true
  | _, _ => false
  end.

(** The variables of [runQueue]: the counters, the [results] array (with
    holes: it is written by index), the workers started so far, and what
    the promise was resolved with, [ok] and [fail] as they were then. *)
Record Queue := mkQueue {
  inFlight : Z;
  idx : nat;
  ok : Z;
  fail : Z;
  results : gmap nat Value;
  slots : list Slot;
  resolved : option (Z * Z)
}.

(** [while (inFlight < concurrency && idx < items.length) { idx++;
    inFlight++; worker(item, currentIndex)... }] *)
Fixpoint startWorkers (fuel len : nat) (concurrency : Z) (q : Queue) : Queue :=
  match fuel with
  | O => q
  | S fuel' =>
    if (inFlight q <? concurrency) && (idx q <? len)%nat
    then startWorkers fuel' len concurrency
           (mkQueue (inFlight q + 1) (S (idx q)) (ok q) (fail q) (results q)
              (slots q ++ [Running]) (resolved q))
    else q
  end.

(** [next()]; resolving a promise that is resolved already does nothing.
    The loop starts one worker per turn, so [len - idx] turns are enough. *)
Definition next (len : nat) (concurrency : Z) (q : Queue) : Queue :=
  if (len <=? idx q)%nat && (inFlight q =? 0)
  then mkQueue (inFlight q) (idx q) (ok q) (fail q) (results q) (slots q)
         (match resolved q with
          | None => Some (ok q, fail q)
          | Some r => Some r
          end)
  else startWorkers (len - idx q) len concurrency q.

(** What the callbacks store in [results]: [r], or [{ error: e.message }]. *)
Definition entry (o : Outcome Value) : Value :=
  match o with
  | Fulfilled r => r
  | Rejected e => VObj [("error", VStr (message e))]
  end.

Inductive QueueEvent :=
| Settle (i : nat) (o : Outcome Value) (* the [then] or [catch] callback of worker [i] *)
| Finalize (i : nat).                  (* the [finally] callback of worker [i] *)

Definition queueStep (len : nat) (concurrency : Z) (ev : QueueEvent) (q : Queue)
  : option Queue :=
  match ev with
  | Settle i o =>
    match slots q !! i with
    | Some Running =>
      Some (mkQueue (inFlight q) (idx q)
              (match o with Fulfilled _ => ok q + 1 | Rejected _ => ok q end)
              (match o with Fulfilled _ => fail q | Rejected _ => fail q + 1 end)
              (<[i := entry o]> (results q))
              (<[i := Settled]> (slots q)) (resolved q))
    | _ => None
    end
  | Finalize i =>
    match slots q !! i with
    | Some Settled =>
      Some (next len concurrency
              (mkQueue (inFlight q - 1) (idx q) (ok q) (fail q) (results q)
                 (<[i := Finished]> (slots q)) (resolved q)))
    | _ => None
    end
  end.

Fixpoint queueExec (len : nat) (concurrency : Z) (evs : list QueueEvent) (q : Queue)
  : option Queue :=
  match evs with
  | [] => Some q
  | ev :: rest =>
    match queueStep len concurrency ev q with
    | Some q' => queueExec len concurrency rest q'
    | None => None
    end
  end.

(** [runQueue(items, concurrency, worker)] up to its first [next()], for
    [len] items and a [worker] that returns a promise, as the one of [main]
    does. *)
Definition runQueue (len : nat) (concurrency : Z) : Queue :=
  next len concurrency (mkQueue 0 0 0 0 ∅ [] None).

(** The number of workers in a given state. *)
Definition countSlot (s : Slot) (l : list Slot) : Z :=
  Z.of_nat (length (List.filter (Slot_eqb s) l)).

(** The callbacks still to come: two per item not started or running, one
    per worker settled. *)
Definition callbacksLeft (len : nat) (q : Queue) : Z :=
  2 * (Z.of_nat len - Z.of_nat (idx q))
  + 2 * countSlot Running (slots q) + countSlot Settled (slots q).

(** What holds of the queue between two callbacks. *)
Definition queueCore (len : nat) (concurrency : Z) (q : Queue) : Prop :=
  idx q = length (slots q)
  /\ (idx q <= len)%nat
  /\ inFlight q = countSlot Running (slots q) + countSlot Settled (slots q)
  /\ ok q + fail q = countSlot Settled (slots q) + countSlot Finished (slots q)
  /\ 0 <= ok q /\ 0 <= fail q
  /\ inFlight q <= concurrency
  /\ (forall o f, resolved q = Some (o, f) ->
        o = ok q /\ f = fail q /\ idx q = len /\ inFlight q = 0)
  /\ (forall i s, slots q !! i = Some s -> s <> Running -> is_Some (results q !! i)).

Definition queueInvariant (len : nat) (concurrency : Z) (q : Queue) : Prop :=
  queueCore len concurrency q
  /\ ((idx q < len)%nat -> inFlight q = concurrency)
  /\ (idx q = len -> inFlight q = 0 -> is_Some (resolved q)).

End Seed.

(** * Properties of [utils/upstream.js] *)

Module UpstreamSpec.
Import Js Upstream.
Local Open Scope Z_scope.

Section WithFastify.
Context {fastify : Fastify}.

(** ** The error of a refusal, by the [fastify] instance *)

Lemma throwUnavailable_sensible msg v :
  httpErrors = Some serviceUnavailable ->
  throwUnavailable msg v = withRetryAfter v (serviceUnavailable msg).
Proof. unfold throwUnavailable. intros ->. reflexivity. Qed.

Lemma throwUnavailable_undefined msg v :
  httpErrors = None -> throwUnavailable msg v = undefinedHttpErrors.
Proof. unfold throwUnavailable. intros ->. reflexivity. Qed.

(** [ceil_div x d] is the least integer not below [x / d]. *)
Lemma ceil_div_spec (x d : Z) :
  0 < d -> d * (ceil_div x d - 1) < x <= d * ceil_div x d.
Proof.
  intros Hd. unfold ceil_div.
  pose proof (Z.div_mod (- x) d ltac:(lia)) as Hdm.
  pose proof (Z.mod_pos_bound (- x) d Hd) as Hb.
  nia.
Qed.

Lemma cooldown_seconds : ceil_div OPEN_COOLDOWN_MS 1000 = 30.
Proof. reflexivity. Qed.

(** ** The breaker's bookkeeping *)

Lemma recordFailure_not_closed ts b :
  state b <> CLOSED ->
  recordFailure ts b = set_failureTimes (failureTimes (pruneFailures ts b) ++ [ts]) b.
Proof.
  intros Hs. unfold recordFailure. cbn.
  destruct (state b); [congruence | reflexivity | reflexivity].
Qed.

Lemma recordFailure_closed ts b :
  state b = CLOSED ->
  recordFailure ts b =
    let l := failureTimes (pruneFailures ts b) ++ [ts] in
    if FAILURE_THRESHOLD <=? Z.of_nat (length l)
    then mkBreaker OPEN l (ts + OPEN_COOLDOWN_MS) (nextProbeAt b) (probeInFlight b)
    else mkBreaker CLOSED l (openUntil b) (nextProbeAt b) (probeInFlight b).
Proof.
  intros Hs.
  unfold recordFailure, pruneFailures, set_openUntil, set_state, set_failureTimes.
  cbn. rewrite Hs. cbn.
  destruct (_ <=? _); reflexivity.
Qed.

(** The only states [recordFailure] can move between. *)
Lemma recordFailure_state ts b :
  state (recordFailure ts b) = state b
  \/ state b = CLOSED /\ state (recordFailure ts b) = OPEN
     /\ openUntil (recordFailure ts b) = ts + OPEN_COOLDOWN_MS.
Proof.
  destruct (state b) eqn:Hs.
  - rewrite recordFailure_closed by assumption. cbn.
    destruct (_ <=? _); cbn; auto.
  - left. rewrite recordFailure_not_closed by congruence. assumption.
  - left. rewrite recordFailure_not_closed by congruence. assumption.
Qed.

Lemma recordFailure_open ts b :
  state b = OPEN ->
  state (recordFailure ts b) = OPEN /\ openUntil (recordFailure ts b) = openUntil b.
Proof.
  intros Hs. rewrite recordFailure_not_closed by congruence. cbn. auto.
Qed.

(** ** While the breaker is open *)

Lemma start_open_rejects clk b :
  state b = OPEN -> clk 0%nat < openUntil b ->
  start clk b = (b, Thrown (openRejection (openUntil b - clk 0%nat)), []).
Proof.
  intros Hs Hlt. unfold start, gate. rewrite Hs. cbn.
  destruct (openUntil b <=? clk 0%nat) eqn:Hle; [lia | reflexivity].
Qed.

Lemma finallyBlock_open b : state b = OPEN -> finallyBlock b = b.
Proof. intros Hs. unfold finallyBlock. rewrite Hs. reflexivity. Qed.

Lemma catchBlock_open clk n err b b' l es :
  state b = OPEN -> catchBlock clk n err b = (b', l, es) ->
  state b' = OPEN /\ openUntil b' = openUntil b.
Proof.
  intros Hs. unfold catchBlock.
  destruct (recordFailure_open (clk 0%nat) b Hs) as [Hs1 Ho1].
  destruct (_ || _).
  - rewrite Hs1. cbn. rewrite finallyBlock_open by assumption.
    intros [= <- _ _]. auto.
  - intros [= <- _ _]. auto.
Qed.

Lemma resume_open clk r l b b' l' es :
  state b = OPEN -> resume clk r l b = Some (b', l', es) ->
  state b' = OPEN /\ openUntil b' = openUntil b.
Proof.
  intros Hs. unfold resume.
  destruct l, r; try discriminate; intros H;
    try (apply (inj Some) in H; eapply catchBlock_open; eassumption).
  - destruct (res_ok status); injection H as <- _ _; [| auto].
    rewrite Hs. cbn. auto.
  - injection H as <- _ _. rewrite finallyBlock_open by assumption. auto.
  - rewrite finallyBlock_open in H by assumption.
    unfold loopHead in H. destruct (_ <=? _); injection H as <- _ _; auto.
Qed.

Lemma step_open ev s s' :
  state (breaker s) = OPEN -> beforeDeadline (openUntil (breaker s)) ev ->
  step ev s = Some s' ->
  state (breaker s') = OPEN /\ openUntil (breaker s') = openUntil (breaker s).
Proof.
  intros Hs Hev. destruct ev as [clk | id clk r]; cbn in *.
  - rewrite start_open_rejects by assumption. intros [= <-]. cbn. auto.
  - destruct (calls s !! id) as [c |]; [| discriminate].
    destruct (resume clk r (cont c) (breaker s)) as [[[b' l] es] |] eqn:Hr; [| discriminate].
    intros [= <-]. cbn. eapply resume_open; eassumption.
Qed.

Lemma exec_open evs : forall s s',
  state (breaker s) = OPEN ->
  Forall (beforeDeadline (openUntil (breaker s))) evs ->
  exec evs s = Some s' ->
  state (breaker s') = OPEN /\ openUntil (breaker s') = openUntil (breaker s).
Proof.
  induction evs as [| ev evs IH]; intros s s' Hs Hall; cbn.
  - intros [= <-]. auto.
  - destruct (step ev s) as [s1 |] eqn:Hstep; [| discriminate].
    intros Hexec. inversion Hall as [| ? ? Hev Hrest]; subst.
    destruct (step_open ev s s1 Hs Hev Hstep) as [Hs1 Ho1].
    rewrite <- Ho1 in Hrest.
    destruct (IH s1 s' Hs1 Hrest Hexec) as [Hs' Ho'].
    split; [assumption | congruence].
Qed.

(** Failures that all lie within one window of each other, recorded on a
    closed breaker: either the breaker has opened at one of them, or all of
    them are still in the failure window and there are fewer than three. *)
Lemma recordFailures_closed tss : forall b,
  state b = CLOSED ->
  (forall t t', In t tss -> In t' tss -> t' - FAILURE_WINDOW_MS <= t) ->
  let b' := recordFailures tss b in
  (state b' = OPEN /\ exists t, In t tss /\ openUntil b' = t + OPEN_COOLDOWN_MS)
  \/ (state b' = CLOSED /\ (length tss < 3)%nat
      /\ exists older, failureTimes b' = older ++ tss).
Proof.
  induction tss as [| t tss IH] using rev_ind; intros b Hs Hwin; cbn.
  - right. split; [assumption |]. split; [lia |]. exists (failureTimes b).
    symmetry. apply app_nil_r.
  - unfold recordFailures. rewrite fold_left_app. cbn.
    fold (recordFailures tss b).
    assert (Hwin' : forall u u', In u tss -> In u' tss -> u' - FAILURE_WINDOW_MS <= u).
    { intros u u' Hu Hu'. apply Hwin; apply in_or_app; auto. }
    destruct (IH b Hs Hwin') as [[Ho [u [Hu Hou]]] | [Hc [Hlen [older Hft]]]].
    + left. destruct (recordFailure_open t _ Ho) as [Ho' Hou'].
      split; [assumption |]. exists u. split; [apply in_or_app; auto | congruence].
    + rewrite recordFailure_closed by assumption. cbn.
      assert (Hkeep : List.filter (fun x => t - FAILURE_WINDOW_MS <=? x) tss = tss).
      { apply forallb_filter_id. apply forallb_forall. intros x Hx.
        apply Z.leb_le. apply Hwin; apply in_or_app; cbn; auto. }
      rewrite Hft, List.filter_app, Hkeep, <- app_assoc.
      destruct (FAILURE_THRESHOLD <=? _) eqn:Hth; cbn.
      * left. split; [reflexivity |]. exists t.
        split; [apply in_or_app; cbn; auto | reflexivity].
      * right. split; [reflexivity |]. apply Z.leb_gt in Hth.
        rewrite !length_app in Hth. rewrite length_app. cbn in *.
        unfold FAILURE_THRESHOLD in Hth.
        split; [lia |]. eexists. reflexivity.
Qed.

(** Three or more failures within one window of each other open a closed
    breaker, for the cool-down counted from one of them. *)
Lemma recordFailures_trip tss b :
  state b = CLOSED -> (3 <= length tss)%nat ->
  (forall t t', In t tss -> In t' tss -> t' - FAILURE_WINDOW_MS <= t) ->
  state (recordFailures tss b) = OPEN
  /\ exists t, In t tss /\ openUntil (recordFailures tss b) = t + OPEN_COOLDOWN_MS.
Proof.
  intros Hs Hlen Hwin.
  destruct (recordFailures_closed tss b Hs Hwin) as [H | [_ [Hlt _]]]; [exact H | lia].
Qed.

(** C1 on the code: when [recordFailure(now)] runs on a closed breaker
    and, counting this failure, at least three of the failures recorded
    have their timestamps in the trailing 30000 ms window, the breaker
    becomes OPEN with [openUntil = now + 30000]; from then on, whatever
    suspended calls resume and whatever calls arrive before [openUntil], a
    call arriving before [openUntil] is thrown out in its first segment
    with no effect at all (no fetch, breaker untouched).  What it is thrown
    out with depends on the [fastify] instance: with @fastify/sensible
    registered, a 503 error whose Retry-After is
    [ceil((openUntil - now') / 1000)]; without [fastify.httpErrors], as for
    the instance of [services/index.js], the TypeError of line 197, which
    has no status code and no Retry-After. *)
Theorem threshold_opens_and_rejects
  (b : Breaker) (ts : Z) (s s' : System) (evs : list Event) (clk : Clock) :
  state b = CLOSED ->
  (3 <= length (List.filter (fun t => (ts - 30000 <=? t)%Z)
                  (failureTimes b ++ [ts])))%nat ->
  breaker s = recordFailure ts b ->
  Forall (beforeDeadline (ts + OPEN_COOLDOWN_MS)) evs ->
  exec evs s = Some s' ->
  clk 0%nat < ts + OPEN_COOLDOWN_MS ->
  state (breaker s) = OPEN
  /\ openUntil (breaker s) = ts + 30000
  /\ start clk (breaker s')
     = (breaker s', Thrown (openRejection (ts + 30000 - clk 0%nat)), [])
  /\ (httpErrors = Some serviceUnavailable ->
      statusCode (openRejection (ts + 30000 - clk 0%nat)) = Some 503
      /\ header "Retry-After" (headers (openRejection (ts + 30000 - clk 0%nat)))
         = Some (ceil_div (ts + 30000 - clk 0%nat) 1000))
  /\ (httpErrors = None ->
      openRejection (ts + 30000 - clk 0%nat) = undefinedHttpErrors
      /\ statusCode (openRejection (ts + 30000 - clk 0%nat)) = None
      /\ header "Retry-After" (headers (openRejection (ts + 30000 - clk 0%nat)))
         = None).
Proof.
  intros Hs Hcount Hb Hall Hexec Hclk.
  assert (Hopen : state (breaker s) = OPEN /\ openUntil (breaker s) = ts + 30000).
  { rewrite Hb, recordFailure_closed by assumption. cbn.
    rewrite length_app. cbn.
    destruct (FAILURE_THRESHOLD <=? _) eqn:Hth; [cbn; auto |].
    apply Z.leb_gt in Hth. unfold FAILURE_THRESHOLD in Hth.
    rewrite List.filter_app, length_app in Hcount. cbn in Hcount.
    destruct (ts - 30000 <=? ts) eqn:Hin; [| lia].
    unfold FAILURE_WINDOW_MS in Hth. cbn in Hcount. lia. }
  destruct Hopen as [Hst Hou].
  assert (Hall' : Forall (beforeDeadline (openUntil (breaker s))) evs).
  { rewrite Hou. exact Hall. }
  destruct (exec_open evs s s' Hst Hall' Hexec) as [Hst' Hou'].
  split_and!; try assumption.
  - rewrite start_open_rejects by (rewrite ?Hou', ?Hou; first [assumption | exact Hclk]).
    rewrite Hou', Hou. reflexivity.
  - intros Hplugin. unfold openRejection.
    rewrite (throwUnavailable_sensible _ _ Hplugin). split; reflexivity.
  - intros Hnone. unfold openRejection.
    rewrite (throwUnavailable_undefined _ _ Hnone). split_and!; reflexivity.
Qed.

End WithFastify.

(** Two failures in the window and a third one at 300 ms, while a call
    made at 50 ms is in flight; then a call that is thrown out, the
    time-out of the call in flight, another call thrown out, and a call 5 s
    before the end of the cool-down, made as [services/index.js] makes it:
    it is thrown out with the TypeError, and there is no Retry-After. *)
Lemma threshold_opens_and_rejects_witness :
  let tripped := mkBreaker OPEN [100; 200; 300] 30300 0 false in
  start (fastify := indexFastify) (always 25300) tripped
  = (tripped, Thrown undefinedHttpErrors, [])
  /\ statusCode undefinedHttpErrors = None
  /\ header "Retry-After" (headers undefinedHttpErrors) = None.
Proof.
  pose (b := mkBreaker CLOSED [100; 200] 0 0 false).
  pose (s := mkSystem (recordFailure 300 b) [mkCall false 50 (AwaitFetch 1)] []).
  pose (evs := [Arrive (always 1000); Wake 0 (always 2050) FetchAborted;
                Arrive (always 20000)]).
  pose (s' := match exec (fastify := indexFastify) evs s with Some x => x | None => s end).
  destruct (threshold_opens_and_rejects (fastify := indexFastify)
              b 300 s s' evs (always 25300))
    as (_ & _ & Hstart & _ & Hwired).
  - reflexivity.
  - vm_compute. lia.
  - reflexivity.
  - repeat constructor; vm_compute; reflexivity.
  - reflexivity.
  - vm_compute. reflexivity.
  - destruct (Hwired eq_refl) as (Herr & Hcode & Hhint).
    rewrite Herr in Hstart, Hcode, Hhint.
    split; [exact Hstart |]. split; [exact Hcode | exact Hhint].
Defined.

(** ** Reachable breakers *)

Ltac break_if :=
  match goal with
  | |- context [if ?c then _ else _] => destruct c eqn:?
  | H : context [if ?c then _ else _] |- _ => destruct c eqn:?
  end.

Section WithFastify.
Context {fastify : Fastify}.

Lemma recordFailure_flag ts b :
  flagOnlyHalfOpen b -> flagOnlyHalfOpen (recordFailure ts b).
Proof.
  unfold flagOnlyHalfOpen. intros Hinv.
  destruct (recordFailure_state ts b) as [Heq | (Hc & Ho & _)].
  - destruct (state b) eqn:Hs.
    + rewrite recordFailure_closed by assumption. cbn. break_if; cbn; intros Hp;
        specialize (Hinv Hp); congruence.
    + rewrite recordFailure_not_closed by congruence. cbn. rewrite Hs. exact Hinv.
    + rewrite recordFailure_not_closed by congruence. cbn. rewrite Hs. exact Hinv.
  - rewrite recordFailure_closed by assumption. cbn. break_if; cbn; intros Hp;
      specialize (Hinv Hp); congruence.
Qed.

Lemma finallyBlock_flag b : flagOnlyHalfOpen b -> flagOnlyHalfOpen (finallyBlock b).
Proof.
  unfold flagOnlyHalfOpen, finallyBlock. intros Hinv.
  break_if; cbn; [discriminate | exact Hinv].
Qed.

Lemma catchBlock_flag clk n err b b' l es :
  flagOnlyHalfOpen b -> catchBlock clk n err b = (b', l, es) -> flagOnlyHalfOpen b'.
Proof.
  intros Hinv. unfold catchBlock.
  pose proof (recordFailure_flag (clk 0%nat) b Hinv) as Hrf.
  destruct (_ || _).
  - intros [= <- _ _]. apply finallyBlock_flag.
    break_if; [intros Hp; discriminate Hp | exact Hrf].
  - intros [= <- _ _]. exact Hinv.
Qed.

Lemma start_flag clk b b' l es :
  flagOnlyHalfOpen b -> start clk b = (b', l, es) -> flagOnlyHalfOpen b'.
Proof.
  unfold flagOnlyHalfOpen, start, gate, loopHead.
  destruct b as [st ft ou np pf]; cbn. intros Hinv.
  destruct st, pf; cbn; repeat (break_if; cbn); intros [= <- _ _]; cbn; auto;
    try discriminate; intros _; specialize (Hinv eq_refl); discriminate.
Qed.

Lemma resume_flag clk r l b b' l' es :
  flagOnlyHalfOpen b -> resume clk r l b = Some (b', l', es) -> flagOnlyHalfOpen b'.
Proof.
  intros Hinv. unfold resume.
  destruct l, r; try discriminate; intros H;
    try (apply (inj Some) in H; eapply catchBlock_flag; eassumption).
  - destruct (res_ok status); injection H as <- _ _; [| assumption].
    break_if; [intros Hp; discriminate Hp | exact Hinv].
  - injection H as <- _ _. apply finallyBlock_flag, Hinv.
  - unfold loopHead in H. break_if; injection H as <- _ _; apply finallyBlock_flag, Hinv.
Qed.

Lemma step_flag ev s s' :
  flagOnlyHalfOpen (breaker s) -> step ev s = Some s' -> flagOnlyHalfOpen (breaker s').
Proof.
  intros Hinv. destruct ev as [clk | id clk r]; cbn.
  - destruct (start clk (breaker s)) as [[b' l] es] eqn:Hst.
    intros [= <-]. cbn. eapply start_flag; eassumption.
  - destruct (calls s !! id) as [c |]; [| discriminate].
    destruct (resume clk r (cont c) (breaker s)) as [[[b' l] es] |] eqn:Hr; [| discriminate].
    intros [= <-]. cbn. eapply resume_flag; eassumption.
Qed.

(** Whatever the interleaving since the process started, [probeInFlight]
    is set only in [HALF_OPEN]. *)
Lemma reachable_flag evs : forall s s',
  flagOnlyHalfOpen (breaker s) -> exec evs s = Some s' -> flagOnlyHalfOpen (breaker s').
Proof.
  induction evs as [| ev evs IH]; intros s s' Hinv; cbn.
  - intros [= <-]. exact Hinv.
  - destruct (step ev s) as [s1 |] eqn:Hstep; [| discriminate].
    intros Hexec. eapply IH; [eapply step_flag |]; eassumption.
Qed.

(** C2, as the code has it: in any state the process can reach, the call
    that finds the breaker OPEN with [now >= openUntil] moves it to
    HALF_OPEN and is itself let through as the probe: it sets
    [probeInFlight], schedules [nextProbeAt = now + 5000] for the next
    probe, and starts its first fetch. *)
Theorem cooldown_call_is_probe (evs : list Event) (s : System) (clk : Clock) :
  exec evs boot = Some s ->
  state (breaker s) = OPEN ->
  openUntil (breaker s) <= clk 0%nat ->
  start clk (breaker s)
  = (mkBreaker HALF_OPEN (failureTimes (breaker s)) (openUntil (breaker s))
       (clk 0%nat + 5000) true,
     AwaitFetch 1, [Fetch 1]).
Proof.
  intros Hexec Hs Hle.
  assert (Hflag : probeInFlight (breaker s) = false).
  { pose proof (reachable_flag evs boot s ltac:(intros H; discriminate H) Hexec) as Hinv.
    destruct (probeInFlight (breaker s)) eqn:Hp; [| reflexivity].
    specialize (Hinv Hp). congruence. }
  unfold start, gate. rewrite Hs. cbn.
  destruct (openUntil (breaker s) <=? clk 0%nat) eqn:Hc; [| lia].
  cbn. rewrite Hflag. cbn.
  destruct (clk 0%nat <? clk 0%nat) eqn:Hlt; [lia |].
  reflexivity.
Qed.

End WithFastify.

(** After [tripTrace] the breaker is OPEN until 30015 ms; a call at
    31000 ms, made as [services/index.js] makes it. *)
Lemma cooldown_call_is_probe_witness :
  start (fastify := indexFastify) (always 31000)
    (mkBreaker OPEN [11; 13; 15] 30015 0 false)
  = (mkBreaker HALF_OPEN [11; 13; 15] 30015 36000 true, AwaitFetch 1, [Fetch 1]).
Proof.
  apply (cooldown_call_is_probe (fastify := indexFastify) tripTrace
           (default boot (exec (fastify := indexFastify) tripTrace boot))
           (always 31000)).
  - vm_compute. reflexivity.
  - vm_compute. reflexivity.
  - vm_compute. discriminate.
Defined.

(** C2 as stated fails: after [tripTrace] the breaker is OPEN until
    30015 ms, and the call at 31000 ms is not thrown out. *)
Lemma first_call_after_cooldown_not_rejected :
  exists s, exec (fastify := indexFastify) tripTrace boot = Some s
    /\ state (breaker s) = OPEN
    /\ openUntil (breaker s) <= 31000
    /\ ~ (exists b' e es,
            start (fastify := indexFastify) (always 31000) (breaker s)
            = (b', Thrown e, es)).
Proof.
  exists (default boot (exec (fastify := indexFastify) tripTrace boot)).
  split; [vm_compute; reflexivity |]. split; [vm_compute; reflexivity |].
  split; [vm_compute; discriminate |].
  intros (b' & e & es & H). vm_compute in H. discriminate H.
Qed.

Section WithFastify.
Context {fastify : Fastify}.

(** C9 on the code: after [twoProbesTrace] the breaker is HALF_OPEN and
    two calls that passed the half-open gate have a fetch in flight, the
    third attempt of call 3 and the first attempt of call 4.  The [finally]
    clause cleared [probeInFlight] after the attempts of call 3 that were
    retried, while call 3 went on. *)
Theorem two_probes_outstanding :
  exists s, exec twoProbesTrace boot = Some s
    /\ state (breaker s) = HALF_OPEN
    /\ calls s !! 3%nat = Some (mkCall true 31000 (AwaitFetch 3))
    /\ calls s !! 4%nat = Some (mkCall true 36000 (AwaitFetch 1))
    /\ outstandingProbes s = 2%nat.
Proof.
  exists (default boot (exec twoProbesTrace boot)).
  split_and!; vm_compute; reflexivity.
Qed.

(** ** The retry loop *)

Lemma transient_status status :
  transient (caught (BadStatus status)) = true <-> 500 <= status.
Proof.
  unfold transient. cbn.
  destruct (status =? 0) eqn:H0; destruct (500 <=? status) eqn:H5; cbn; split;
    intros; try discriminate; try reflexivity; lia.
Qed.

Lemma transient_cases f :
  transient (caught f) = true ->
  f = TimedOut \/ exists status, f = BadStatus status /\ 500 <= status.
Proof.
  destruct f as [| | status |]; cbn; try discriminate; [auto |].
  intros H. right. exists status. split; [reflexivity |].
  apply transient_status. exact H.
Qed.

Lemma res_ok_server_error status : 500 <= status -> res_ok status = false.
Proof. intros H. unfold res_ok. apply andb_false_iff. right. apply Z.leb_gt. lia. Qed.

End WithFastify.

#[local] Arguments catchBlock : simpl never.
#[local] Arguments caught : simpl never.

Section WithFastify.
Context {fastify : Fastify}.

Lemma gate_admits_start clk b :
  snd (gate (clk 0%nat) b) = None ->
  start clk b = (fst (gate (clk 0%nat) b), AwaitFetch 1, [Fetch 1]).
Proof.
  unfold start. destruct (gate (clk 0%nat) b) as [b1 [e |]]; cbn; [discriminate |].
  reflexivity.
Qed.

(** A call that has thrown or returned takes no more steps. *)
Lemma run_thrown script b e es : run script (b, Thrown e, es) = (b, Thrown e, es).
Proof. destruct script as [| [c r] rest]; reflexivity. Qed.

Lemma run_returned script b v es : run script (b, Returned v, es) = (b, Returned v, es).
Proof. destruct script as [| [c r] rest]; reflexivity. Qed.

(** A transient failure of attempt [n <= 2]: the breaker is not touched
    and the call sleeps [100 * 2^(n-1)] ms. *)
Lemma run_transient_attempt f c1 c2 rest n b es :
  transient (caught f) = true -> n <= MAX_RETRIES ->
  run (attemptFails f c1 c2 ++ rest) (b, AwaitFetch n, es)
  = run rest (b, AwaitSleep n, es ++ [Sleep (100 * BACKOFF_FACTOR ^ (n - 1))]).
Proof.
  intros Ht Hn.
  assert (Hcatch : forall c, catchBlock c n (caught f) b
            = (b, AwaitSleep n, [Sleep (100 * BACKOFF_FACTOR ^ (n - 1))])).
  { intros c. unfold catchBlock. rewrite Ht. cbn.
    destruct (MAX_RETRIES <? n) eqn:Hl; [lia | reflexivity]. }
  destruct (transient_cases f Ht) as [-> | (status & -> & Hst)]; cbn.
  - rewrite (Hcatch c1). reflexivity.
  - rewrite (res_ok_server_error status Hst). cbn.
    rewrite (Hcatch c2), app_nil_r. reflexivity.
Qed.

(** A failure of attempt [n] that is not retried: one [recordFailure], and
    the call throws [unavailable]. *)
Lemma run_final_attempt f c1 c2 rest n b es :
  (forall status, f = BadStatus status -> res_ok status = false) ->
  f <> BadBody ->
  transient (caught f) = false \/ MAX_RETRIES < n ->
  exists b',
    run (attemptFails f c1 c2 ++ rest) (b, AwaitFetch n, es)
    = (b', Thrown unavailable,
       es ++ [ReportFailure (match f with BadStatus _ => c2 | _ => c1 end 0%nat)])
    /\ failureTimes b'
       = failureTimes
           (pruneFailures (match f with BadStatus _ => c2 | _ => c1 end 0%nat) b)
         ++ [match f with BadStatus _ => c2 | _ => c1 end 0%nat].
Proof.
  intros Hok Hbody Hfinal.
  assert (Hcatch : forall c, exists b',
            catchBlock c n (caught f) b = (b', Thrown unavailable, [ReportFailure (c 0%nat)])
            /\ failureTimes b' = failureTimes (pruneFailures (c 0%nat) b) ++ [c 0%nat]).
  { intros c. unfold catchBlock.
    assert (Hcond : negb (transient (caught f)) || (MAX_RETRIES <? n) = true).
    { destruct Hfinal as [-> | Hn]; [reflexivity |].
      apply orb_true_iff. right. apply Z.ltb_lt. exact Hn. }
    rewrite Hcond. eexists. split; [reflexivity |].
    assert (Hft : failureTimes (recordFailure (c 0%nat) b)
              = failureTimes (pruneFailures (c 0%nat) b) ++ [c 0%nat]).
    { unfold recordFailure. break_if; reflexivity. }
    unfold finallyBlock. repeat break_if; cbn; exact Hft. }
  destruct f as [| | status |]; cbn; try congruence.
  - destruct (Hcatch c1) as (b' & -> & Hft).
    exists b'. rewrite run_thrown. auto.
  - destruct (Hcatch c1) as (b' & -> & Hft).
    exists b'. rewrite run_thrown. auto.
  - rewrite (Hok status eq_refl). cbn.
    destruct (Hcatch c2) as (b' & -> & Hft). rewrite app_nil_r.
    exists b'. rewrite run_thrown. auto.
Qed.

Lemma run_sleep_over c rest n b es :
  n + 1 <= MAX_RETRIES + 1 ->
  run ((c, SleepOver) :: rest) (b, AwaitSleep n, es)
  = run rest (finallyBlock b, AwaitFetch (n + 1), es ++ [Fetch (n + 1)]).
Proof.
  intros Hn. cbn. unfold loopHead.
  destruct (n + 1 <=? MAX_RETRIES + 1) eqn:Hle; [reflexivity | lia].
Qed.

(** C3: the [catch] clause classifies an attempt as transient exactly when
    it timed out or the response status was at least 500; a response with
    a status that is neither 2xx nor 5xx (400, say) ends the call after its
    single fetch; and a call let through by the gate whose first two
    attempts fail transiently and whose third gets a 2xx response with
    body [v] fetches three times, sleeps 100 ms then 200 ms, reports one
    success and no failure, and returns [v]. *)
Theorem retry_classification_and_backoff :
  (forall f, transient (caught f) = true
     <-> f = TimedOut \/ exists status, f = BadStatus status /\ 500 <= status)
  /\ (forall clk b c1 c2 rest status,
        snd (gate (clk 0%nat) b) = None ->
        res_ok status = false -> status < 500 ->
        exists b' es,
          upstream clk ((c1, FetchResponse status) :: (c2, TextSettled) :: rest) b
          = (b', Thrown unavailable, es)
          /\ es = [Fetch 1; ReportFailure (c2 0%nat)]
          /\ sleeps es = [])
  /\ (forall clk b f1 f2 c1 c2 c3 c4 c5 c6 c7 c8 status v,
        snd (gate (clk 0%nat) b) = None ->
        transient (caught f1) = true -> transient (caught f2) = true ->
        res_ok status = true ->
        exists b' es,
          upstream clk
            (attemptFails f1 c1 c2 ++ [(c3, SleepOver)]
             ++ attemptFails f2 c4 c5 ++ [(c6, SleepOver)]
             ++ [(c7, FetchResponse status); (c8, JsonParsed v)]) b
          = (b', Returned v, es)
          /\ es = [Fetch 1; Sleep 100; Fetch 2; Sleep 200; Fetch 3; ReportSuccess]
          /\ sleeps es = [100; 200]
          /\ successes es = 1%nat /\ failures es = 0%nat).
Proof.
  split_and!.
  - intros f. split; [apply transient_cases |].
    intros [-> | (status & -> & Hst)]; [reflexivity | apply transient_status, Hst].
  - intros clk b c1 c2 rest status Hgate Hok Hst.
    unfold upstream. rewrite gate_admits_start by assumption.
    destruct (run_final_attempt (BadStatus status) c1 c2 rest 1
                (fst (gate (clk 0%nat) b)) [Fetch 1]) as (b' & Hrun & _).
    + intros status' [= <-]. exact Hok.
    + discriminate.
    + left. destruct (transient (caught (BadStatus status))) eqn:Ht; [| reflexivity].
      apply transient_status in Ht. lia.
    + exists b'. eexists. split; [exact Hrun |]. split; reflexivity.
  - intros clk b f1 f2 c1 c2 c3 c4 c5 c6 c7 c8 status v Hgate Ht1 Ht2 Hok.
    unfold upstream. rewrite gate_admits_start by assumption.
    rewrite run_transient_attempt by (assumption || (unfold MAX_RETRIES; lia)).
    cbn [app]. rewrite run_sleep_over by (unfold MAX_RETRIES; lia).
    rewrite run_transient_attempt by (assumption || (unfold MAX_RETRIES; lia)).
    cbn [app]. rewrite run_sleep_over by (unfold MAX_RETRIES; lia).
    cbn. rewrite Hok. cbn.
    eexists. eexists. split; [reflexivity |]. split_and!; reflexivity.
Qed.

End WithFastify.

(** A [400] answer on a fresh breaker; and a [503], a timeout, then a
    [200] with body [7]. *)
Lemma retry_classification_and_backoff_witness :
  (exists b',
     upstream (fastify := indexFastify) (always 0)
       [(always 40, FetchResponse 400); (always 41, TextSettled)] initial
     = (b', Thrown (unavailable (fastify := indexFastify)),
        [Fetch 1; ReportFailure 41]))
  /\ (exists b',
       upstream (fastify := indexFastify) (always 0)
         [(always 40, FetchResponse 503); (always 41, TextSettled);
          (always 141, SleepOver); (always 2141, FetchAborted);
          (always 2341, SleepOver); (always 2400, FetchResponse 200);
          (always 2401, JsonParsed (VNum 7))] initial
       = (b', Returned (VNum 7),
          [Fetch 1; Sleep 100; Fetch 2; Sleep 200; Fetch 3; ReportSuccess])).
Proof.
  destruct (retry_classification_and_backoff (fastify := indexFastify))
    as (_ & Hperm & Hretry).
  split.
  - destruct (Hperm (always 0) initial (always 40) (always 41) [] 400)
      as (b' & es & Hrun & -> & _); [reflexivity | reflexivity | lia |].
    exists b'. exact Hrun.
  - destruct (Hretry (always 0) initial (BadStatus 503) TimedOut
                (always 40) (always 41) (always 141) (always 2141) (always 2141)
                (always 2341) (always 2400) (always 2401) 200 (VNum 7))
      as (b' & es & Hrun & -> & _); [reflexivity | reflexivity | reflexivity | reflexivity |].
    exists b'. exact Hrun.
Defined.

Section WithFastify.
Context {fastify : Fastify}.

(** ** Outcomes in [HALF_OPEN] *)

Lemma recordSuccess_initial b : recordSuccess b = initial.
Proof. reflexivity. Qed.

Lemma catchBlock_thrown clk n err b b' e es :
  catchBlock clk n err b = (b', Thrown e, es) ->
  e = unavailable /\ es = [ReportFailure (clk 0%nat)]
  /\ b' = finallyBlock
            (if STATE_eqb (state (recordFailure (clk 0%nat) b)) HALF_OPEN
             then set_openUntil (clk 1%nat + OPEN_COOLDOWN_MS)
                    (set_probeInFlight false
                       (set_state OPEN (recordFailure (clk 0%nat) b)))
             else recordFailure (clk 0%nat) b).
Proof.
  unfold catchBlock. destruct (_ || _); [| discriminate].
  intros [= <- <- <-]. auto.
Qed.

(** A segment that throws after the first one comes from the [catch]
    clause. *)
Lemma resume_thrown clk r l b b' e es :
  resume clk r l b = Some (b', Thrown e, es) ->
  exists n err, catchBlock clk n err b = (b', Thrown e, es).
Proof.
  unfold resume.
  destruct l, r; try discriminate; intros H;
    try (apply (inj Some) in H; eauto; fail).
  - destruct (res_ok status); discriminate H.
  - unfold loopHead in H. destruct (_ <=? _); discriminate H.
Qed.

(** C4: in HALF_OPEN, a 2xx response makes the call run [recordSuccess]:
    the breaker is back to its initial value, CLOSED with an empty failure
    history, [openUntil = 0], [nextProbeAt = 0] and [probeInFlight] unset;
    and a call that throws from the retry loop (a final failure) leaves the
    breaker OPEN with [openUntil = now + 30000], where [now] is the second
    clock reading of the segment, and [probeInFlight] unset. *)
Theorem half_open_probe_outcome :
  (forall clk b n status,
     state b = HALF_OPEN -> res_ok status = true ->
     resume clk (FetchResponse status) (AwaitFetch n) b
     = Some (mkBreaker CLOSED [] 0 0 false, AwaitJson n, [ReportSuccess]))
  /\ (forall clk r l b b' e es,
       state b = HALF_OPEN -> resume clk r l b = Some (b', Thrown e, es) ->
       state b' = OPEN /\ openUntil b' = clk 1%nat + 30000
       /\ probeInFlight b' = false
       /\ failureTimes b' = failureTimes (pruneFailures (clk 0%nat) b) ++ [clk 0%nat]).
Proof.
  split.
  - intros clk b n status Hs Hok. cbn. rewrite Hok, Hs. reflexivity.
  - intros clk r l b b' e es Hs Hr.
    destruct (resume_thrown _ _ _ _ _ _ _ Hr) as (n & err & Hc).
    destruct (catchBlock_thrown _ _ _ _ _ _ _ Hc) as (_ & _ & ->).
    rewrite recordFailure_not_closed by congruence. cbn. rewrite Hs. cbn. auto.
Qed.

End WithFastify.

(** A probe at 31000 ms: answered [200]; or timing out on its third
    attempt at 37300 ms. *)
Lemma half_open_probe_outcome_witness :
  resume (fastify := indexFastify) (always 31050) (FetchResponse 200) (AwaitFetch 1)
    (mkBreaker HALF_OPEN [11; 13; 15] 30015 36000 true)
  = Some (mkBreaker CLOSED [] 0 0 false, AwaitJson 1, [ReportSuccess])
  /\ (let b' := fst (fst (catchBlock (fastify := indexFastify)
                           (always 37300) 3 (caught TimedOut)
                           (mkBreaker HALF_OPEN [11; 13; 15] 30015 36000 false))) in
      state b' = OPEN /\ openUntil b' = 67300 /\ probeInFlight b' = false
      /\ failureTimes b' = [37300]).
Proof.
  destruct (half_open_probe_outcome (fastify := indexFastify)) as (Hsucc & Hfail).
  split.
  - apply Hsucc; reflexivity.
  - apply (Hfail (always 37300) FetchAborted (AwaitFetch 3)
             (mkBreaker HALF_OPEN [11; 13; 15] 30015 36000 false) _
             (unavailable (fastify := indexFastify))
             [ReportFailure 37300]); reflexivity.
Defined.

Section WithFastify.
Context {fastify : Fastify}.

(** ** The errors thrown to the caller *)

Lemma start_thrown clk b b' e es :
  start clk b = (b', Thrown e, es) ->
  es = [] /\ exists msg v, e = throwUnavailable msg v.
Proof.
  unfold start, gate, loopHead.
  repeat (break_if; cbn); intros H; try discriminate H;
    injection H as <- <- <-; eauto.
Qed.

(** With @fastify/sensible: status 503, and the Retry-After that was
    set. *)
Lemma throwUnavailable_503 msg v :
  httpErrors = Some serviceUnavailable ->
  statusCode (throwUnavailable msg v) = Some 503
  /\ header "Retry-After" (headers (throwUnavailable msg v)) = Some v.
Proof. intros H. rewrite (throwUnavailable_sensible _ _ H). split; reflexivity. Qed.

Lemma unavailable_503 :
  httpErrors = Some serviceUnavailable ->
  statusCode unavailable = Some 503
  /\ header "Retry-After" (headers unavailable) = Some 30.
Proof. intros H. apply throwUnavailable_503, H. Qed.

(** Without [fastify.httpErrors]: neither. *)
Lemma throwUnavailable_bare msg v :
  httpErrors = None ->
  throwUnavailable msg v = undefinedHttpErrors
  /\ statusCode (throwUnavailable msg v) = None
  /\ header "Retry-After" (headers (throwUnavailable msg v)) = None.
Proof. intros H. rewrite (throwUnavailable_undefined _ _ H). split_and!; reflexivity. Qed.

(** A run that ends thrown either started thrown or threw [unavailable]. *)
Lemma run_thrown_inv script : forall b l es b' e es',
  run script (b, l, es) = (b', Thrown e, es') ->
  (l = Thrown e /\ es' = es) \/ (e = unavailable /\ es' <> []).
Proof.
  induction script as [| [c r] rest IH]; intros b l es b' e es'; cbn.
  - intros [= <- <- <-]. auto.
  - destruct (resume c r l b) as [[[b1 l1] es1] |] eqn:Hr.
    + intros Hrun. right.
      destruct (IH _ _ _ _ _ _ Hrun) as [[-> ->] | H]; [| exact H].
      destruct (resume_thrown _ _ _ _ _ _ _ Hr) as (n & err & Hc).
      destruct (catchBlock_thrown _ _ _ _ _ _ _ Hc) as (-> & -> & _).
      split; [reflexivity |]. intros Hnil. apply app_eq_nil in Hnil.
      destruct Hnil as [_ Hnil]. discriminate Hnil.
    + intros [= <- <- <-]. auto.
Qed.

(** Whatever a call of [upstream] throws comes out of one of its three
    [throw] statements; once the call has had an effect, out of the one of
    the [catch] clause. *)
Lemma upstream_thrown clk script b b' e es :
  upstream clk script b = (b', Thrown e, es) ->
  (exists msg v, e = throwUnavailable msg v) /\ (es <> [] -> e = unavailable).
Proof.
  unfold upstream. destruct (start clk b) as [[b0 l0] es0] eqn:Hst. intros Hrun.
  destruct (run_thrown_inv _ _ _ _ _ _ _ Hrun) as [[-> ->] | [-> Hne]].
  - destruct (start_thrown _ _ _ _ _ Hst) as (-> & Hfrom).
    split; [exact Hfrom | congruence].
  - split; [| reflexivity]. unfold unavailable. eauto.
Qed.

(** C10 on the code.  An error thrown after the first segment, by any
    call in any breaker state and in any interleaving, is [unavailable],
    whatever the upstream answered and whatever is left of the cool-down.
    What that error and the errors of the gate are depends on the
    [fastify] instance.  With @fastify/sensible registered, every error
    thrown is a 503 error with a Retry-After header, which is 30 on a final
    failure.  With the instance of [services/index.js], which has no
    [httpErrors], every error thrown is the TypeError of reading
    [.serviceUnavailable] of [undefined]: no status code, no Retry-After. *)
Theorem thrown_errors_by_instance :
  (forall clk r l b b' e es,
     resume clk r l b = Some (b', Thrown e, es) -> e = unavailable)
  /\ (httpErrors = Some serviceUnavailable ->
      (forall clk r l b b' e es,
         resume clk r l b = Some (b', Thrown e, es) ->
         statusCode e = Some 503 /\ header "Retry-After" (headers e) = Some 30)
      /\ (forall clk script b b' e es,
            upstream clk script b = (b', Thrown e, es) ->
            statusCode e = Some 503
            /\ exists v, header "Retry-After" (headers e) = Some v
                         /\ (es <> [] -> v = ceil_div 30000 1000 /\ v = 30)))
  /\ (httpErrors = None ->
      (forall clk r l b b' e es,
         resume clk r l b = Some (b', Thrown e, es) ->
         e = undefinedHttpErrors /\ statusCode e = None
         /\ header "Retry-After" (headers e) = None)
      /\ (forall clk script b b' e es,
            upstream clk script b = (b', Thrown e, es) ->
            e = undefinedHttpErrors /\ statusCode e = None
            /\ header "Retry-After" (headers e) = None)).
Proof.
  assert (Hresume : forall clk r l b b' e es,
            resume clk r l b = Some (b', Thrown e, es) -> e = unavailable).
  { intros clk r l b b' e es H.
    destruct (resume_thrown _ _ _ _ _ _ _ H) as (n & err & Hc).
    destruct (catchBlock_thrown _ _ _ _ _ _ _ Hc) as (-> & _). reflexivity. }
  split_and!.
  - exact Hresume.
  - intros Hplugin. split.
    + intros clk r l b b' e es H. rewrite (Hresume _ _ _ _ _ _ _ H).
      apply unavailable_503, Hplugin.
    + intros clk script b b' e es H.
      destruct (upstream_thrown _ _ _ _ _ _ H) as ((msg & v & ->) & Hfinal).
      destruct (throwUnavailable_503 msg v Hplugin) as (H503 & Hhint).
      split; [exact H503 |]. exists v. split; [exact Hhint |].
      intros Hne. specialize (Hfinal Hne).
      destruct (unavailable_503 Hplugin) as (_ & H30).
      rewrite Hfinal in Hhint. rewrite H30 in Hhint.
      injection Hhint as <-. split; reflexivity.
  - intros Hnone. split.
    + intros clk r l b b' e es H. rewrite (Hresume _ _ _ _ _ _ _ H).
      apply throwUnavailable_bare, Hnone.
    + intros clk script b b' e es H.
      destruct (upstream_thrown _ _ _ _ _ _ H) as ((msg & v & ->) & _).
      apply throwUnavailable_bare, Hnone.
Qed.

End WithFastify.

(** A [400] answer on the first attempt of a call on a fresh breaker, made
    as [services/index.js] makes it: the failure is recorded, and line 265
    throws the TypeError. *)
Lemma thrown_errors_by_instance_witness :
  upstream (fastify := indexFastify) (always 0)
    [(always 40, FetchResponse 400); (always 41, TextSettled)] initial
  = (mkBreaker CLOSED [41] 0 0 false, Thrown undefinedHttpErrors,
     [Fetch 1; ReportFailure 41])
  /\ statusCode undefinedHttpErrors = None
  /\ header "Retry-After" (headers undefinedHttpErrors) = None.
Proof.
  assert (Hrun : upstream (fastify := indexFastify) (always 0)
                   [(always 40, FetchResponse 400); (always 41, TextSettled)] initial
                 = (mkBreaker CLOSED [41] 0 0 false, Thrown undefinedHttpErrors,
                    [Fetch 1; ReportFailure 41])).
  { vm_compute. reflexivity. }
  destruct (thrown_errors_by_instance (fastify := indexFastify)) as (_ & _ & Hwired).
  destruct (Hwired eq_refl) as (_ & Hcall).
  destruct (Hcall _ _ _ _ _ _ Hrun) as (_ & Hcode & Hhint).
  split; [exact Hrun |]. split; [exact Hcode | exact Hhint].
Defined.

Section WithFastify.
Context {fastify : Fastify}.

(** ** Reports to the breaker *)

(** C8 on the code: a [204 No Content] answer.  The response is [ok], so
    the success branch runs; then [res.json()] rejects on the empty body
    and the [catch] clause records a failure: the one call reports a
    success and a failure, and throws.  On a fresh breaker the failure
    stays in the window; for the probe of a half-open breaker (the breaker
    left by [tripTrace], called at 31000 ms) [recordSuccess] closes the
    breaker and [recordFailure] then counts a failure against it. *)
Theorem success_then_failure_reported :
  upstream (always 0) [(always 40, FetchResponse 204); (always 41, JsonFailed)] initial
  = (mkBreaker CLOSED [41] 0 0 false, Thrown unavailable,
     [Fetch 1; ReportSuccess; ReportFailure 41])
  /\ upstream (always 31000)
       [(always 31040, FetchResponse 204); (always 31041, JsonFailed)]
       (mkBreaker OPEN [11; 13; 15] 30015 0 false)
     = (mkBreaker CLOSED [31041] 0 0 false, Thrown unavailable,
        [Fetch 1; ReportSuccess; ReportFailure 31041]).
Proof. split; vm_compute; reflexivity. Qed.

Lemma successes_app es es' : successes (es ++ es') = (successes es + successes es')%nat.
Proof. unfold successes. rewrite List.filter_app, length_app. reflexivity. Qed.

Lemma failures_app es es' : failures (es ++ es') = (failures es + failures es')%nat.
Proof. unfold failures. rewrite List.filter_app, length_app. reflexivity. Qed.

Lemma catchBlock_cases clk n err b :
  (exists b', catchBlock clk n err b = (b', Thrown unavailable, [ReportFailure (clk 0%nat)]))
  \/ (transient err = true
      /\ catchBlock clk n err b
         = (b, AwaitSleep n, [Sleep (100 * BACKOFF_FACTOR ^ (n - 1))])).
Proof.
  unfold catchBlock. destruct (transient err); cbn.
  - destruct (MAX_RETRIES <? n); [left; eexists; reflexivity | right; auto].
  - left. eexists. reflexivity.
Qed.

Lemma resume_reports clean c r l b b' l' es es' :
  resume c r l b = Some (b', l', es') ->
  (clean = true -> r <> JsonFailed) ->
  reportInvariant clean l es -> reportInvariant clean l' (es ++ es').
Proof.
  unfold resume. intros Hr Hclean Hinv.
  destruct l, r; try discriminate Hr; cbn in Hinv.
  - destruct (res_ok status); injection Hr as <- <- <-; cbn;
      rewrite successes_app, failures_app; cbn; lia.
  - apply (inj Some) in Hr.
    destruct (catchBlock_cases c attempt (caught TimedOut) b) as [[b1 H] | [_ H]];
      rewrite H in Hr; injection Hr as <- <- <-; cbn;
      rewrite successes_app, failures_app; cbn; lia.
  - apply (inj Some) in Hr.
    destruct (catchBlock_cases c attempt (caught NetworkDown) b) as [[b1 H] | [_ H]];
      rewrite H in Hr; injection Hr as <- <- <-; cbn;
      rewrite successes_app, failures_app; cbn; lia.
  - apply (inj Some) in Hr.
    destruct (catchBlock_cases c attempt (caught (BadStatus status)) b) as [[b1 H] | [_ H]];
      rewrite H in Hr; injection Hr as <- <- <-; cbn;
      rewrite successes_app, failures_app; cbn; lia.
  - injection Hr as <- <- <-. cbn. rewrite app_nil_r. lia.
  - apply (inj Some) in Hr.
    destruct (catchBlock_cases c attempt (caught BadBody) b) as [[b1 H] | [Ht _]];
      [| discriminate Ht].
    rewrite H in Hr. injection Hr as <- <- <-. cbn.
    rewrite successes_app, failures_app. cbn.
    split; [lia |]. split; [lia |]. intros ->. exfalso. apply Hclean; reflexivity.
  - unfold loopHead in Hr. destruct (_ <=? _); injection Hr as <- <- <-; cbn;
      rewrite ?successes_app, ?failures_app, ?app_nil_r; cbn; lia.
Qed.

Lemma run_reports clean script : forall b l es b' l' es',
  run script (b, l, es) = (b', l', es') ->
  (clean = true -> forall c, ~ In (c, JsonFailed) script) ->
  reportInvariant clean l es -> reportInvariant clean l' es'.
Proof.
  induction script as [| [c r] rest IH]; intros b l es b' l' es'; cbn.
  - intros [= <- <- <-] _ H. exact H.
  - destruct (resume c r l b) as [[[b1 l1] es1] |] eqn:Hr.
    + intros Hrun Hclean Hinv. eapply IH; [exact Hrun | |].
      * intros Hc c' Hin. apply (Hclean Hc c'). right. exact Hin.
      * eapply resume_reports; [exact Hr | | exact Hinv].
        intros Hc ->. apply (Hclean Hc c). left. reflexivity.
    + intros [= <- <- <-] _ H. exact H.
Qed.

(** Every call reports at most one success and at most one failure, and
    at most one report in all unless a response body failed to parse. *)
Lemma reports_per_call clk script b b' l es :
  upstream clk script b = (b', l, es) ->
  (successes es <= 1)%nat /\ (failures es <= 1)%nat
  /\ ((forall c, ~ In (c, JsonFailed) script) -> (successes es + failures es <= 1)%nat).
Proof.
  unfold upstream. destruct (start clk b) as [[b0 l0] es0] eqn:Hst. intros Hrun.
  assert (Hinit : forall clean, reportInvariant clean l0 es0).
  { intros clean. revert Hst. unfold start, loopHead.
    destruct (gate (clk 0%nat) b) as [b1 [e |]]; cbn;
      intros [= <- <- <-]; cbn; lia. }
  assert (Hrep : forall clean,
            (clean = true -> forall c, ~ In (c, JsonFailed) script) ->
            reportInvariant clean l es).
  { intros clean Hclean. eapply run_reports; [exact Hrun | exact Hclean | apply Hinit]. }
  split_and!.
  - pose proof (Hrep false ltac:(discriminate)) as Hinv.
    destruct l; cbn in Hinv; lia.
  - pose proof (Hrep false ltac:(discriminate)) as Hinv.
    destruct l; cbn in Hinv; lia.
  - intros Hclean. pose proof (Hrep true (fun _ => Hclean)) as Hinv.
    destruct l; cbn in Hinv; lia.
Qed.

(** A call let through by the gate whose three attempts all fail
    transiently: three fetches, two sleeps, and one [recordFailure], which
    appends one timestamp to the pruned failure window. *)
Lemma three_transient_attempts_one_failure
  clk b f1 f2 f3 c1 c2 c3 c4 c5 c6 c7 c8 rest :
  snd (gate (clk 0%nat) b) = None ->
  transient (caught f1) = true -> transient (caught f2) = true ->
  transient (caught f3) = true ->
  let t := match f3 with BadStatus _ => c8 | _ => c7 end 0%nat in
  exists b',
    upstream clk
      (attemptFails f1 c1 c2 ++ [(c3, SleepOver)]
       ++ attemptFails f2 c4 c5 ++ [(c6, SleepOver)]
       ++ attemptFails f3 c7 c8 ++ rest) b
    = (b', Thrown unavailable,
       [Fetch 1; Sleep 100; Fetch 2; Sleep 200; Fetch 3; ReportFailure t])
    /\ exists window, failureTimes b' = window ++ [t].
Proof.
  intros Hgate Ht1 Ht2 Ht3 t.
  unfold upstream. rewrite gate_admits_start by assumption.
  rewrite run_transient_attempt by (assumption || (unfold MAX_RETRIES; lia)).
  cbn [app]. rewrite run_sleep_over by (unfold MAX_RETRIES; lia).
  rewrite run_transient_attempt by (assumption || (unfold MAX_RETRIES; lia)).
  cbn [app]. rewrite run_sleep_over by (unfold MAX_RETRIES; lia).
  match goal with
  | |- context [run _ (?b0, AwaitFetch ?n, ?es0)] =>
    destruct (run_final_attempt f3 c7 c8 rest n b0 es0) as (b' & Hrun & Hft)
  end.
  - intros status ->. apply res_ok_server_error, transient_status, Ht3.
  - intros ->. discriminate Ht3.
  - right. reflexivity.
  - exists b'. split; [exact Hrun |]. eexists. exact Hft.
Qed.

End WithFastify.

End UpstreamSpec.

(** * Properties of the [/getEventsByUserId/:id] handler *)

Module RoutesSpec.
Import Js Routes.

(** ** The chunking loop *)

Section Chunking.
Context {A : Type}.
Variable size : nat.
Hypothesis size_pos : 0 < size.

Lemma length_slice i (a : list A) :
  length (slice i (i + size) a) = Nat.min size (length a - i).
Proof.
  unfold slice. rewrite length_firstn, length_skipn.
  replace (i + size - i) with size by lia. reflexivity.
Qed.

(** The chunks, in order, make up the rest of the array. *)
Lemma chunkLoop_concat fuel : forall i (a : list A),
  length a - i <= fuel -> concat (chunkLoop size fuel i a) = skipn i a.
Proof.
  induction fuel as [| fuel IH]; intros i a Hfuel; simpl chunkLoop.
  - symmetry. apply skipn_all2. lia.
  - destruct (i <? length a) eqn:Hlt.
    + apply Nat.ltb_lt in Hlt. rewrite concat_cons, IH by lia.
      unfold slice. replace (i + size - i) with size by lia.
      rewrite (Nat.add_comm i size), <- skipn_skipn.
      apply firstn_skipn.
    + apply Nat.ltb_ge in Hlt. symmetry. apply skipn_all2. exact Hlt.
Qed.

(** More fuel than [length a - i] changes nothing: the loop has stopped. *)
Lemma chunkLoop_enough_fuel fuel : forall fuel' i (a : list A),
  length a - i <= fuel -> fuel <= fuel' ->
  chunkLoop size fuel' i a = chunkLoop size fuel i a.
Proof.
  induction fuel as [| fuel IH]; intros fuel' i a Hfuel Hle.
  - destruct fuel' as [| fuel']; [reflexivity |]. simpl chunkLoop.
    destruct (i <? length a) eqn:Hlt; [| reflexivity].
    apply Nat.ltb_lt in Hlt. lia.
  - destruct fuel' as [| fuel']; [lia |]. simpl chunkLoop.
    destruct (i <? length a) eqn:Hlt; [| reflexivity].
    apply Nat.ltb_lt in Hlt. f_equal. apply IH; lia.
Qed.

Lemma chunkLoop_sizes fuel : forall i (a : list A),
  List.map (@length A) (chunkLoop size fuel i a) = chunkSizes size fuel (length a - i).
Proof.
  induction fuel as [| fuel IH]; intros i a; simpl chunkLoop; simpl chunkSizes;
    [reflexivity |].
  destruct (i <? length a) eqn:Hlt.
  - apply Nat.ltb_lt in Hlt.
    destruct (0 <? length a - i) eqn:Hrem; [| apply Nat.ltb_ge in Hrem; lia].
    rewrite List.map_cons, length_slice, IH. f_equal. f_equal. lia.
  - apply Nat.ltb_ge in Hlt.
    destruct (0 <? length a - i) eqn:Hrem; [apply Nat.ltb_lt in Hrem; lia | reflexivity].
Qed.

(** With enough fuel there are [ceil(rem / size)] slices. *)
Lemma chunkSizes_length fuel : forall rem,
  rem <= fuel -> length (chunkSizes size fuel rem) = (rem + size - 1) / size.
Proof.
  induction fuel as [| fuel IH]; intros rem Hfuel; simpl chunkSizes.
  - replace rem with 0 by lia. symmetry. apply Nat.div_small. lia.
  - destruct (0 <? rem) eqn:Hrem.
    + apply Nat.ltb_lt in Hrem. rewrite length_cons, IH by lia.
      destruct (Nat.le_gt_cases size rem) as [Hge | Hlt].
      * replace (rem + size - 1) with (rem - size + size - 1 + 1 * size) by lia.
        rewrite Nat.div_add by lia. lia.
      * replace (rem - size) with 0 by lia.
        replace (rem + size - 1) with (rem - 1 + 1 * size) by lia.
        rewrite Nat.div_add by lia.
        rewrite (Nat.div_small (0 + size - 1)) by lia.
        rewrite (Nat.div_small (rem - 1)) by lia. reflexivity.
    + apply Nat.ltb_ge in Hrem. replace rem with 0 by lia.
      symmetry. apply Nat.div_small. lia.
Qed.

Lemma chunkSizes_bounds fuel : forall rem,
  Forall (fun n => 0 < n <= size) (chunkSizes size fuel rem).
Proof.
  induction fuel as [| fuel IH]; intros rem; simpl chunkSizes; [constructor |].
  destruct (0 <? rem) eqn:Hrem; [| constructor].
  apply Nat.ltb_lt in Hrem. constructor; [lia | apply IH].
Qed.

End Chunking.

(** ** The chunks of the handler *)

Lemma chunked_concat (events : list Id) : concat (chunked events) = events.
Proof.
  unfold chunked. rewrite chunkLoop_concat by (unfold smallEventSize; lia).
  reflexivity.
Qed.

Lemma chunked_sizes (events : list Id) :
  List.map (@length Id) (chunked events)
  = chunkSizes smallEventSize (length events) (length events).
Proof.
  unfold chunked. rewrite chunkLoop_sizes by (unfold smallEventSize; lia).
  rewrite Nat.sub_0_r. reflexivity.
Qed.

Lemma chunked_length (events : list Id) :
  length (chunked events) = (length events + 49) / 50.
Proof.
  rewrite <- (List.length_map (@length Id)), chunked_sizes.
  rewrite chunkSizes_length by (unfold smallEventSize; lia).
  unfold smallEventSize. f_equal. lia.
Qed.

Lemma chunked_bounds (events : list Id) :
  Forall (fun batch => 0 < length batch <= 50) (chunked events).
Proof.
  pose proof (chunkSizes_bounds smallEventSize ltac:(unfold smallEventSize; lia)
                (length events) (length events)) as H.
  rewrite <- chunked_sizes in H. apply Forall_map in H. exact H.
Qed.

(** ** Promises and arrays *)

Lemma promiseAll_fulfilled {A} (vs : list A) :
  promiseAll (List.map Fulfilled vs) = Fulfilled vs.
Proof. induction vs as [| v vs IH]; cbn; [reflexivity |]. rewrite IH. reflexivity. Qed.

Lemma promiseAll_rejected {A} (ps : list (Outcome A)) e :
  In (Rejected e) ps -> exists e', promiseAll ps = Rejected e'.
Proof.
  induction ps as [| p ps IH]; cbn; [intros [] |].
  intros [-> | Hin]; [eauto |].
  destruct p as [v | e0]; [| eauto].
  destruct (IH Hin) as [e' ->]. eauto.
Qed.

Lemma flat_arrays (colls : list (list Value)) :
  flat (List.map VArr colls) = concat colls.
Proof.
  unfold flat. rewrite List.map_map. f_equal. apply List.map_id.
Qed.

Lemma values_of_fulfilled (rs : list (Outcome Value)) :
  List.map value (List.filter fulfilled rs) = omap payload rs.
Proof.
  induction rs as [| [v | e] rs IH]; cbn; [reflexivity | | exact IH].
  rewrite IH. reflexivity.
Qed.

Lemma handler_chunked_branch (events : list Id) up :
  50 < length events ->
  getEventsByUserId events up
  = (List.map batchPath (chunked events),
     match promiseAll (imap up (List.map batchPath (chunked events))) with
     | Fulfilled rs => Fulfilled (List.filter truthy (flat rs))
     | Rejected e => Rejected e
     end).
Proof.
  intros Hlen. unfold getEventsByUserId.
  destruct (length events =? 0) eqn:H0; [apply Nat.eqb_eq in H0; lia |].
  destruct (smallEventSize <? length events) eqn:H50; [reflexivity |].
  apply Nat.ltb_ge in H50. unfold smallEventSize in H50. lia.
Qed.

Lemma handler_item_branch (events : list Id) up :
  length events <= 50 ->
  getEventsByUserId events up
  = (List.map itemPath events,
     Fulfilled (omap payload (imap up (List.map itemPath events)))).
Proof.
  intros Hlen. unfold getEventsByUserId.
  destruct (length events =? 0) eqn:H0.
  - apply Nat.eqb_eq in H0. destruct events; [reflexivity | discriminate H0].
  - destruct (smallEventSize <? length events) eqn:H50.
    + apply Nat.ltb_lt in H50. unfold smallEventSize in H50. lia.
    + rewrite values_of_fulfilled. reflexivity.
Qed.

(** The chunked path, from how the batched calls settle: one batched path
    per batch is requested whatever the outcomes, and when every batched
    call fulfils the handler returns the flattened results without the
    falsy entries. *)
Lemma chunked_outcome (events : list Id) (up : nat -> string -> Outcome Value) :
  50 < length events ->
  fst (getEventsByUserId events up) = List.map batchPath (chunked events)
  /\ (forall rs,
        imap up (List.map batchPath (chunked events)) = List.map Fulfilled rs ->
        snd (getEventsByUserId events up) = Fulfilled (List.filter truthy (flat rs))).
Proof.
  intros Hlen. rewrite handler_chunked_branch by assumption. cbn [fst snd].
  split; [reflexivity |].
  intros rs ->. rewrite promiseAll_fulfilled. reflexivity.
Qed.

(** ** The per-item path *)

Lemma item_payloads (events : list Id) up v :
  In v (omap payload (imap up (List.map itemPath events)))
  <-> exists i eid, events !! i = Some eid /\ up i (itemPath eid) = Fulfilled v.
Proof.
  rewrite <- list_elem_of_In, list_elem_of_omap. split.
  - intros (r & Hr & Hv). apply list_elem_of_lookup in Hr. destruct Hr as [i Hi].
    rewrite list_lookup_imap, list_lookup_fmap in Hi.
    destruct (events !! i) as [eid |] eqn:He; [| discriminate Hi].
    cbn in Hi. injection Hi as <-. exists i, eid. split; [exact He |].
    destruct (up i (itemPath eid)); [| discriminate Hv].
    cbn in Hv. congruence.
  - intros (i & eid & He & Hup). exists (Fulfilled v). split; [| reflexivity].
    apply list_elem_of_lookup. exists i.
    rewrite list_lookup_imap, list_lookup_fmap, He. cbn. rewrite Hup. reflexivity.
Qed.

(** The per-item path, from how the calls settle: one item path per
    identifier is requested, in order and whatever the outcomes; the
    handler never throws; and it returns the payloads of the calls that
    fulfilled, those and no others. *)
Lemma per_item_outcome (events : list Id) (up : nat -> string -> Outcome Value) :
  length events <= 50 ->
  fst (getEventsByUserId events up) = List.map itemPath events
  /\ (exists payloads,
        snd (getEventsByUserId events up) = Fulfilled payloads
        /\ payloads = omap payload (imap (fun i eid => up i (itemPath eid)) events)
        /\ forall v, In v payloads
             <-> exists i eid, events !! i = Some eid /\ up i (itemPath eid) = Fulfilled v).
Proof.
  intros Hlen. rewrite handler_item_branch by assumption. cbn [fst snd].
  split; [reflexivity |].
  eexists. split; [reflexivity |]. split.
  - f_equal. apply (imap_fmap up itemPath events).
  - apply item_payloads.
Qed.

(** ** The chunked path when a call fails *)

(** A rejected batched call makes the handler throw. *)
Lemma chunk_rejection_propagates (events : list Id) up i batch e :
  50 < length events ->
  chunked events !! i = Some batch ->
  up i (batchPath batch) = Rejected e ->
  exists e', snd (getEventsByUserId events up) = Rejected e'.
Proof.
  intros Hlen Hb Hup. rewrite handler_chunked_branch by assumption. cbn [snd].
  destruct (promiseAll_rejected (imap up (List.map batchPath (chunked events))) e)
    as [e' ->]; [| eauto].
  apply list_elem_of_In, list_elem_of_lookup. exists i.
  rewrite list_lookup_imap, list_lookup_fmap, Hb. cbn. rewrite Hup. reflexivity.
Qed.

(** C7 on the code: 51 identifiers make two batches; the first batched
    call returns an event, the second fails, and the handler throws the
    error of the second call instead of returning the event. *)
Theorem chunk_failure_fails_aggregation :
  length fiftyOneEvents = 51
  /\ List.map (@length Id) (chunked fiftyOneEvents) = [50; 1]
  /\ imap secondCallFails (fst (getEventsByUserId fiftyOneEvents secondCallFails))
     = [Fulfilled (VArr [VObj [("id", VNum 1)]]); Rejected Routes.finalFailure]
  /\ snd (getEventsByUserId fiftyOneEvents secondCallFails)
     = Rejected Routes.finalFailure.
Proof. split_and!; vm_compute; reflexivity. Qed.

End RoutesSpec.

(** * Properties of the fan-out on the event loop *)

Module FanOutSpec.
Import Js Upstream Routes FanOut.

(** ** Promises *)

Lemma rejection_found ps e :
  rejection ps = Some e -> In (Some (Rejected e)) ps.
Proof.
  induction ps as [| [[v | e'] |] ps IH]; cbn; try discriminate; auto.
  intros [= ->]. auto.
Qed.

Lemma rejection_none ps e :
  rejection ps = None -> ~ In (Some (Rejected e)) ps.
Proof.
  induction ps as [| o ps IH]; cbn; [tauto |].
  destruct o as [[v | e'] |]; try discriminate;
    intros H [Heq | Hin]; try discriminate Heq; exact (IH H Hin).
Qed.

Lemma rejection_some ps e :
  In (Some (Rejected e)) ps -> exists e', rejection ps = Some e'.
Proof.
  intros Hin. destruct (rejection ps) as [e' |] eqn:Hr; [eauto |].
  exfalso. exact (rejection_none _ _ Hr Hin).
Qed.

Lemma allSettled_lookup s ids outcomes :
  allSettled s ids = Some outcomes ->
  forall id, In id ids -> exists o, promise s id = Some o /\ In o outcomes.
Proof.
  unfold allSettled. intros H. apply mapM_Some_1 in H.
  induction H as [| id' o ids outcomes Ho _ IH]; [intros id [] |].
  intros id [<- | Hin]; [exists o; cbn; auto |].
  destruct (IH id Hin) as (o' & Hp & Ho'). exists o'. cbn. auto.
Qed.

Lemma three_calls (cs : list Call) c0 c1 c2 :
  length cs = 3 -> cs !! 0 = Some c0 -> cs !! 1 = Some c1 -> cs !! 2 = Some c2 ->
  cs = [c0; c1; c2].
Proof.
  destruct cs as [| x0 [| x1 [| x2 [| x3 rest]]]]; try discriminate.
  intros _ [= ->] [= ->] [= ->]. reflexivity.
Qed.

Section WithFastify.
Context {fastify : Fastify}.

(** ** The first segment of the handler *)

Lemma start_closed clk b :
  state b = CLOSED -> start clk b = (b, AwaitFetch 1, [Fetch 1]).
Proof. intros Hs. unfold start, gate. rewrite Hs. cbn. rewrite Hs. reflexivity. Qed.

(** Calling [upstream] is the arrival of a call. *)
Lemma callUpstream_arrive clk path p :
  step (Arrive clk) (sys p) = Some (sys (fst (callUpstream clk path p)))
  /\ requests (fst (callUpstream clk path p))
     = requests p ++ [(length (calls (sys p)), path)]
  /\ snd (callUpstream clk path p) = length (calls (sys p))
  /\ length (calls (sys (fst (callUpstream clk path p)))) = S (length (calls (sys p))).
Proof.
  unfold callUpstream. cbn.
  destruct (start clk (breaker (sys p))) as [[b' l] es]. cbn.
  rewrite length_app. cbn. split_and!; try reflexivity. lia.
Qed.

Lemma callUpstream_closed clk path p :
  state (breaker (sys p)) = CLOSED ->
  breaker (sys (fst (callUpstream clk path p))) = breaker (sys p)
  /\ calls (sys (fst (callUpstream clk path p)))
     = calls (sys p) ++ [mkCall false (clk 0) (AwaitFetch 1)].
Proof.
  intros Hs. unfold callUpstream. rewrite (start_closed clk _ Hs). cbn.
  rewrite Hs. split; reflexivity.
Qed.

(** The [map] over the paths: the calls arrive one after the other with no
    other step in between, and take the next positions of the table. *)
Lemma mapUpstream_arrivals clks paths : forall i p p' ids,
  mapUpstream clks i paths p = (p', ids) ->
  exec (imap (fun k _ => Arrive (clks (i + k))) paths) (sys p) = Some (sys p')
  /\ ids = seq (length (calls (sys p))) (length paths)
  /\ requests p'
     = requests p ++ imap (fun k path => (length (calls (sys p)) + k, path)) paths
  /\ length (calls (sys p')) = length (calls (sys p)) + length paths.
Proof.
  induction paths as [| path rest IH]; intros i p p' ids; cbn [mapUpstream].
  - intros [= <- <-]. cbn. rewrite app_nil_r. split_and!; try reflexivity. lia.
  - destruct (callUpstream_arrive (clks i) path p) as (Hstep & Hreq & Hid & Hlen).
    destruct (callUpstream (clks i) path p) as [p1 id]. cbn [fst snd] in *.
    destruct (mapUpstream clks (S i) rest p1) as [p2 ids2] eqn:Hrest.
    intros [= <- <-].
    destruct (IH _ _ _ _ Hrest) as (Hexec & Hids & Hreqs & Hlens).
    cbn [imap exec]. rewrite Nat.add_0_r, Hstep.
    split_and!.
    + rewrite <- Hexec. f_equal. apply imap_ext. intros k x _. cbn.
      f_equal. f_equal. lia.
    + cbn. rewrite Hid, Hids, Hlen. reflexivity.
    + rewrite Hreqs, Hreq, <- app_assoc. cbn. rewrite Nat.add_0_r. f_equal. f_equal.
      apply imap_ext. intros k x _. cbn. f_equal. lia.
    + cbn. lia.
Qed.

(** On a closed breaker every one of them is let through: after the
    segment all the calls have a fetch in flight, and the breaker is as it
    was. *)
Lemma mapUpstream_closed clks paths : forall i p p' ids,
  state (breaker (sys p)) = CLOSED ->
  mapUpstream clks i paths p = (p', ids) ->
  breaker (sys p') = breaker (sys p)
  /\ calls (sys p')
     = calls (sys p)
       ++ imap (fun k _ => mkCall false (clks (i + k) 0) (AwaitFetch 1)) paths.
Proof.
  induction paths as [| path rest IH]; intros i p p' ids Hs; cbn [mapUpstream].
  - intros [= <- <-]. cbn. rewrite app_nil_r. auto.
  - destruct (callUpstream_closed (clks i) path p Hs) as (Hb & Hc).
    destruct (callUpstream (clks i) path p) as [p1 id]. cbn [fst snd] in *.
    destruct (mapUpstream clks (S i) rest p1) as [p2 ids2] eqn:Hrest.
    intros [= <- <-].
    destruct (IH _ _ _ _ ltac:(rewrite Hb; exact Hs) Hrest) as (Hb2 & Hc2).
    split; [congruence |].
    rewrite Hc2, Hc, <- app_assoc. cbn. rewrite Nat.add_0_r. f_equal. f_equal.
    apply imap_ext. intros k x _. cbn. f_equal. f_equal. lia.
Qed.

(** ** Calls beside each other *)

(** A step of one call leaves every other call where it is. *)
Lemma step_other_calls id clk r s s' j :
  step (Wake id clk r) s = Some s' -> j <> id -> calls s' !! j = calls s !! j.
Proof.
  cbn. destruct (calls s !! id) as [c |]; [| discriminate].
  destruct (resume clk r (cont c) (breaker s)) as [[[b' l] es] |]; [| discriminate].
  intros [= <-] Hne. cbn. apply list_lookup_insert_ne. congruence.
Qed.

(** Where a call goes on a wake-up, and what it does, does not depend on
    the breaker: what other calls did to the breaker in between cannot
    make it fail, nor succeed. *)
Lemma resume_any_breaker clk r l b b1 l1 es b2 :
  resume clk r l b = Some (b1, l1, es) ->
  exists b3, resume clk r l b2 = Some (b3, l1, es).
Proof.
  assert (Hcatch : forall n err,
            exists b3, catchBlock clk n err b2
                       = (b3, snd (fst (catchBlock clk n err b)), snd (catchBlock clk n err b))).
  { intros n err. unfold catchBlock. destruct (_ || _); cbn; eauto. }
  unfold resume. destruct l, r; try discriminate; intros H.
  - destruct (res_ok status); injection H as _ <- <-; eauto.
  - apply (inj Some) in H. destruct (Hcatch attempt (caught TimedOut)) as [b3 ->].
    rewrite H. eauto.
  - apply (inj Some) in H. destruct (Hcatch attempt (caught NetworkDown)) as [b3 ->].
    rewrite H. eauto.
  - apply (inj Some) in H.
    destruct (Hcatch attempt (caught (BadStatus status))) as [b3 ->].
    rewrite H. eauto.
  - injection H as _ <- <-. eauto.
  - apply (inj Some) in H. destruct (Hcatch attempt (caught BadBody)) as [b3 ->].
    rewrite H. eauto.
  - unfold loopHead in *. destruct (_ <=? _)%Z; injection H as _ <- <-; eauto.
Qed.

(** A call that is over takes no more steps. *)
Lemma settled_finished l o clk r b :
  Handlers.settled l = Some o -> resume clk r l b = None.
Proof. intros Hl. destruct l; try discriminate Hl; destruct r; reflexivity. Qed.

(** A settled promise stays as it is. *)
Lemma step_promise ev s s' id o :
  step ev s = Some s' -> promise s id = Some o -> promise s' id = Some o.
Proof.
  unfold promise. destruct (calls s !! id) as [c |] eqn:Hc; [| discriminate].
  intros Hstep Ho. destruct ev as [clk | id' clk r]; cbn in Hstep.
  - destruct (start clk (breaker s)) as [[b' l] es]. injection Hstep as <-. cbn.
    rewrite (lookup_app_l_Some _ _ _ _ Hc). exact Ho.
  - destruct (decide (id' = id)) as [-> | Hne].
    + rewrite Hc, (settled_finished _ _ clk r _ Ho) in Hstep. discriminate Hstep.
    + destruct (calls s !! id') as [c' |]; [| discriminate].
      destruct (resume clk r (cont c') (breaker s)) as [[[b' l] es] |]; [| discriminate].
      injection Hstep as <-. cbn.
      rewrite list_lookup_insert_ne by congruence. rewrite Hc. exact Ho.
Qed.

Lemma exec_promise evs : forall s s' id o,
  exec evs s = Some s' -> promise s id = Some o -> promise s' id = Some o.
Proof.
  induction evs as [| ev evs IH]; intros s s' id o; cbn.
  - intros [= <-]. auto.
  - destruct (step ev s) as [s1 |] eqn:Hstep; [| discriminate].
    intros Hexec Ho. eapply IH; [exact Hexec |]. eapply step_promise; eassumption.
Qed.

Lemma exec_allSettled evs s s' ids outcomes :
  exec evs s = Some s' ->
  allSettled s ids = Some outcomes -> allSettled s' ids = Some outcomes.
Proof.
  unfold allSettled. intros Hexec H. apply mapM_Some. apply mapM_Some_1 in H.
  induction H; constructor; [eapply exec_promise; eassumption | assumption].
Qed.

(** ** The handler from its [await] on *)

Lemma serve_exec evs : forall h s h' s',
  serve evs h s = Some (h', s') -> exec evs s = Some s'.
Proof.
  induction evs as [| ev evs IH]; intros h s h' s'; cbn.
  - intros [= _ <-]. reflexivity.
  - destruct (step ev s) as [s1 |]; [| discriminate]. apply IH.
Qed.

Lemma serve_done evs : forall r s h' s',
  serve evs (Done r) s = Some (h', s') -> h' = Done r.
Proof.
  induction evs as [| ev evs IH]; intros r s h' s'; cbn.
  - intros [= <- _]. reflexivity.
  - destruct (step ev s) as [s1 |]; [| discriminate]. apply IH.
Qed.

(** [Promise.allSettled]: the handler goes on when every call is settled,
    whichever way, and not before. *)
Lemma serve_allSettled evs : forall ids s h' s',
  serve evs (AwaitAllSettled ids) s = Some (h', s') ->
  match allSettled s' ids with
  | Some outcomes => h' = Done (Fulfilled (omap payload outcomes))
  | None => h' = AwaitAllSettled ids
  end.
Proof.
  induction evs as [| ev evs IH]; intros ids s h' s'; cbn.
  - intros [= <- <-]. destruct (allSettled s ids) as [outcomes |]; [| reflexivity].
    rewrite RoutesSpec.values_of_fulfilled. reflexivity.
  - destruct (step ev s) as [s1 |] eqn:Hstep; [| discriminate].
    destruct (allSettled s ids) as [outcomes |] eqn:Hall; [| apply IH].
    intros Hserve.
    assert (Hexec : exec (ev :: evs) s = Some s').
    { cbn. rewrite Hstep. eapply serve_exec. exact Hserve. }
    rewrite (exec_allSettled _ _ _ _ _ Hexec Hall).
    rewrite (serve_done _ _ _ _ _ Hserve), RoutesSpec.values_of_fulfilled. reflexivity.
Qed.

(** [Promise.all] when every call fulfils. *)
Lemma serve_all_fulfilled evs : forall ids s h' s' rs,
  serve evs (AwaitAll ids) s = Some (h', s') ->
  allSettled s' ids = Some (List.map Fulfilled rs) ->
  h' = Done (Fulfilled (List.filter truthy (flat rs))).
Proof.
  assert (Hnone : forall evs0 ids s s' rs,
            exec evs0 s = Some s' ->
            allSettled s' ids = Some (List.map Fulfilled rs) ->
            rejection (List.map (promise s) ids) = None).
  { intros evs0 ids s s' rs Hexec Hall.
    destruct (rejection (List.map (promise s) ids)) as [e |] eqn:Hrej; [| reflexivity].
    exfalso. apply rejection_found in Hrej. apply in_map_iff in Hrej.
    destruct Hrej as (id & Hp & Hin).
    pose proof (exec_promise _ _ _ _ _ Hexec Hp) as Hp'.
    destruct (allSettled_lookup _ _ _ Hall id Hin) as (o & Ho & Hino).
    rewrite Hp' in Ho. injection Ho as <-.
    apply in_map_iff in Hino. destruct Hino as (v & Hv & _). discriminate Hv. }
  induction evs as [| ev evs IH]; intros ids s h' s' rs; cbn.
  - intros [= <- <-] Hall. unfold all.
    rewrite (Hnone [] ids s s rs eq_refl Hall), Hall.
    rewrite RoutesSpec.promiseAll_fulfilled. reflexivity.
  - destruct (step ev s) as [s1 |] eqn:Hstep; [| discriminate].
    intros Hserve Hall.
    assert (Hexec : exec (ev :: evs) s = Some s').
    { cbn. rewrite Hstep. eapply serve_exec. exact Hserve. }
    unfold all in Hserve. rewrite (Hnone _ ids s s' rs Hexec Hall) in Hserve.
    destruct (allSettled s ids) as [rs0 |] eqn:Hall0.
    + rewrite (exec_allSettled _ _ _ _ _ Hexec Hall0) in Hall. injection Hall as ->.
      rewrite RoutesSpec.promiseAll_fulfilled in Hserve.
      apply serve_done in Hserve. exact Hserve.
    + eapply IH; eassumption.
Qed.

(** [Promise.all] when a call has thrown: the handler throws the error of
    one of its calls, whether or not the other calls are over. *)
Lemma serve_all_rejected evs : forall ids s h' s' id e,
  serve evs (AwaitAll ids) s = Some (h', s') ->
  In id ids -> promise s' id = Some (Rejected e) ->
  exists id' e',
    In id' ids /\ promise s' id' = Some (Rejected e') /\ h' = Done (Rejected e').
Proof.
  assert (Hfound : forall ids s e0,
            rejection (List.map (promise s) ids) = Some e0 ->
            exists id0, In id0 ids /\ promise s id0 = Some (Rejected e0)).
  { intros ids s e0 Hrej. apply rejection_found, in_map_iff in Hrej.
    destruct Hrej as (id0 & Hp & Hin). eauto. }
  induction evs as [| ev evs IH]; intros ids s h' s' id e; cbn.
  - intros [= <- <-] Hin Hp. unfold all.
    destruct (rejection_some (List.map (promise s) ids) e) as [e' Hrej].
    { apply in_map_iff. eauto. }
    rewrite Hrej. destruct (Hfound _ _ _ Hrej) as (id0 & Hin0 & Hp0). eauto.
  - destruct (step ev s) as [s1 |] eqn:Hstep; [| discriminate].
    intros Hserve Hin Hp.
    assert (Hexec : exec (ev :: evs) s = Some s').
    { cbn. rewrite Hstep. eapply serve_exec. exact Hserve. }
    unfold all in Hserve.
    destruct (rejection (List.map (promise s) ids)) as [e0 |] eqn:Hrej.
    { apply serve_done in Hserve. destruct (Hfound _ _ _ Hrej) as (id0 & Hin0 & Hp0).
      exists id0, e0. split; [exact Hin0 |]. split; [| exact Hserve].
      eapply exec_promise; eassumption. }
    destruct (allSettled s ids) as [rs |] eqn:Hall; [| eapply IH; eassumption].
    exfalso. destruct (allSettled_lookup _ _ _ Hall id Hin) as (o & Ho & _).
    pose proof (exec_promise _ _ _ _ _ Hexec Ho) as Ho'.
    rewrite Hp in Ho'. injection Ho' as <-.
    apply (rejection_none _ e Hrej). apply in_map_iff. eauto.
Qed.

(** ** The two paths of the handler *)

Lemma fanOut_item_branch clks (events : list Id) p p' h :
  length events <= 50 ->
  fanOut clks events p = (p', h) ->
  exists ids,
    mapUpstream clks 0 (List.map itemPath events) p = (p', ids)
    /\ (h = AwaitAllSettled ids \/ events = [] /\ h = Done (Fulfilled [])).
Proof.
  intros Hlen. unfold fanOut.
  destruct (length events =? 0) eqn:H0.
  - apply Nat.eqb_eq in H0. destruct events; [| discriminate H0].
    intros [= <- <-]. exists []. cbn. auto.
  - destruct (smallEventSize <? length events) eqn:H50.
    + apply Nat.ltb_lt in H50. unfold smallEventSize in H50. lia.
    + destruct (mapUpstream clks 0 (List.map itemPath events) p) as [p1 ids].
      intros [= <- <-]. exists ids. auto.
Qed.

Lemma fanOut_chunked_branch clks (events : list Id) p p' h :
  50 < length events ->
  fanOut clks events p = (p', h) ->
  exists ids,
    mapUpstream clks 0 (List.map batchPath (chunked events)) p = (p', ids)
    /\ h = AwaitAll ids.
Proof.
  intros Hlen. unfold fanOut.
  destruct (length events =? 0) eqn:H0; [apply Nat.eqb_eq in H0; lia |].
  destruct (smallEventSize <? length events) eqn:H50.
  - destruct (mapUpstream clks 0 (List.map batchPath (chunked events)) p) as [p1 ids].
    intros [= <- <-]. exists ids. auto.
  - apply Nat.ltb_ge in H50. unfold smallEventSize in H50. lia.
Qed.

(** C5: for more than 50 identifiers the handler cuts the list into
    [ceil(n / 50)] batches of 1 to 50 identifiers whose concatenation is the
    input (sizes 50, 50, 20 for 120 identifiers).  In the one segment that
    ends at [await Promise.all], it calls [upstream] once per batch, with
    the path ["/getEventsByIds?ids="] followed by the identifiers of the
    batch joined by commas: the calls arrive one after the other with no
    step of any call in between, so on a closed breaker all the batched
    calls have their fetch in flight together when the handler suspends.
    However the calls then interleave, once all of them have returned the
    handler returns the flattened results, in the order of the batches and
    without the falsy entries; flattening arrays is concatenating them. *)
Theorem chunked_fan_out
  (clks : nat -> Clock) (events : list Id) (p p' : Process) (h : Handler) :
  50 < length events ->
  fanOut clks events p = (p', h) ->
  let n0 := length (calls (sys p)) in
  let chunks := chunked events in
  length chunks = (length events + 49) / 50
  /\ Forall (fun batch => 0 < length batch <= 50) chunks
  /\ concat chunks = events
  /\ (length events = 120 -> List.map (@length Id) chunks = [50; 50; 20])
  /\ exec (imap (fun i _ => Arrive (clks i)) chunks) (sys p) = Some (sys p')
  /\ requests p'
     = requests p
       ++ imap (fun i batch =>
                  (n0 + i, ("/getEventsByIds?ids=" ++ String.concat "," batch)%string))
            chunks
  /\ length (calls (sys p')) = n0 + length chunks
  /\ h = AwaitAll (seq n0 (length chunks))
  /\ (state (breaker (sys p)) = CLOSED ->
      breaker (sys p') = breaker (sys p)
      /\ forall i, i < length chunks ->
           calls (sys p') !! (n0 + i) = Some (mkCall false (clks i 0) (AwaitFetch 1)))
  /\ (forall evs h' s' rs,
        serve evs h (sys p') = Some (h', s') ->
        allSettled s' (seq n0 (length chunks)) = Some (List.map Fulfilled rs) ->
        h' = Done (Fulfilled (List.filter truthy (flat rs))))
  /\ (forall colls, flat (List.map VArr colls) = concat colls).
Proof.
  intros Hlen Hfan n0 chunks.
  destruct (fanOut_chunked_branch _ _ _ _ _ Hlen Hfan) as (ids & Hmap & ->).
  destruct (mapUpstream_arrivals _ _ _ _ _ _ Hmap) as (Hexec & -> & Hreq & Hcalls).
  rewrite List.length_map in *. fold chunks n0 in Hexec, Hreq, Hcalls |- *.
  split_and!.
  - apply RoutesSpec.chunked_length.
  - apply RoutesSpec.chunked_bounds.
  - apply RoutesSpec.chunked_concat.
  - intros H120. unfold chunks. rewrite RoutesSpec.chunked_sizes, H120. reflexivity.
  - rewrite <- Hexec. change (List.map batchPath chunks) with (batchPath <$> chunks).
    rewrite imap_fmap. reflexivity.
  - rewrite Hreq. change (List.map batchPath chunks) with (batchPath <$> chunks).
    rewrite imap_fmap. reflexivity.
  - exact Hcalls.
  - reflexivity.
  - intros Hs. destruct (mapUpstream_closed _ _ _ _ _ _ Hs Hmap) as (Hb & Hc).
    split; [exact Hb |]. intros i Hi. rewrite Hc.
    rewrite lookup_app_r by (fold n0; lia). fold n0.
    replace (n0 + i - n0) with i by lia.
    rewrite list_lookup_imap.
    change (List.map batchPath chunks) with (batchPath <$> chunks).
    rewrite list_lookup_fmap.
    destruct (lookup_lt_is_Some_2 chunks i Hi) as [batch Hbatch].
    unfold chunks in Hbatch. rewrite Hbatch. reflexivity.
  - intros evs h' s' rs Hserve Hall. eapply serve_all_fulfilled; eassumption.
  - apply RoutesSpec.flat_arrays.
Qed.

End WithFastify.

(** 120 identifiers on a fresh process: three batched calls, of 50, 50 and
    20 identifiers, all in flight when the handler suspends; the third is
    answered first, and the results come back in the order of the batches,
    without the [null] and the [0]. *)
Lemma chunked_fan_out_witness :
  let clks := fun _ : nat => always 0 in
  let p := mkProcess boot [] in
  let p' := fst (fanOut (fastify := indexFastify) clks hundredTwentyEvents p) in
  let h := snd (fanOut (fastify := indexFastify) clks hundredTwentyEvents p) in
  let evs := answeredOutOfOrder (VArr [VNum 1; VNull]) (VArr [VNum 2])
               (VArr [VNum 0; VNum 3]) in
  List.map (@length Id) (chunked hundredTwentyEvents) = [50; 50; 20]
  /\ requestedPaths p'
     = [ ("/getEventsByIds?ids=1,2,3,4,5,6,7,8,9,10,11,12,13,14,15,16,17,18,19,20,"
          ++ "21,22,23,24,25,26,27,28,29,30,31,32,33,34,35,36,37,38,39,40,"
          ++ "41,42,43,44,45,46,47,48,49,50")%string;
         ("/getEventsByIds?ids=51,52,53,54,55,56,57,58,59,60,61,62,63,64,65,66,67,"
          ++ "68,69,70,71,72,73,74,75,76,77,78,79,80,81,82,83,84,85,86,87,"
          ++ "88,89,90,91,92,93,94,95,96,97,98,99,100")%string;
         ("/getEventsByIds?ids=101,102,103,104,105,106,107,108,109,110,"
          ++ "111,112,113,114,115,116,117,118,119,120")%string ]
  /\ List.map inFlight (calls (sys p')) = [true; true; true]
  /\ fst <$> serve (fastify := indexFastify) evs h (sys p')
     = Some (Done (Fulfilled [VNum 1; VNum 2; VNum 3])).
Proof.
  intros clks p p' h evs.
  destruct (chunked_fan_out (fastify := indexFastify) clks hundredTwentyEvents p p' h)
    as (_ & _ & _ & Hsizes & _ & Hreq & Hlen & _ & Hclosed & Hres & _).
  - vm_compute. lia.
  - vm_compute. reflexivity.
  - split_and!.
    + apply Hsizes. reflexivity.
    + unfold requestedPaths. rewrite Hreq. vm_compute. reflexivity.
    + destruct (Hclosed eq_refl) as (_ & Hcalls).
      pose proof (Hcalls 0 ltac:(vm_compute; lia)) as H0.
      pose proof (Hcalls 1 ltac:(vm_compute; lia)) as H1.
      pose proof (Hcalls 2 ltac:(vm_compute; lia)) as H2.
      rewrite (three_calls _ _ _ _ Hlen H0 H1 H2). reflexivity.
    + pose (s' := default boot (exec (fastify := indexFastify) evs (sys p'))).
      assert (Hserve : serve (fastify := indexFastify) evs h (sys p')
                       = Some (poll h s', s')).
      { vm_compute. reflexivity. }
      rewrite Hserve. cbn [fmap option_fmap option_map fst]. apply (f_equal Some).
      apply (Hres evs (poll h s') s'
               [VArr [VNum 1; VNull]; VArr [VNum 2]; VArr [VNum 0; VNum 3]] Hserve).
      vm_compute. reflexivity.
Defined.

Section WithFastify.
Context {fastify : Fastify}.

(** C6: for at most 50 identifiers the handler, in the one segment that
    ends at [await Promise.allSettled], calls [upstream] once per
    identifier, with the path ["/getEventById/"] followed by the
    identifier: the calls arrive one after the other with no step of any
    call in between, so on a closed breaker all of them have their fetch in
    flight together when the handler suspends.  The handler stays suspended
    until every call is settled, whichever way, and then returns the
    payloads of the calls that returned, in the order of the identifiers
    and whatever the order in which the calls settled.  A step of one call
    leaves the others where they are, and where a call goes on a wake-up
    does not depend on the breaker, so that a call that fails neither
    cancels another call nor makes it fail. *)
Theorem per_item_fan_out
  (clks : nat -> Clock) (events : list Id) (p p' : Process) (h : Handler) :
  length events <= 50 ->
  fanOut clks events p = (p', h) ->
  let n0 := length (calls (sys p)) in
  let ids := seq n0 (length events) in
  exec (imap (fun i _ => Arrive (clks i)) events) (sys p) = Some (sys p')
  /\ requests p'
     = requests p
       ++ imap (fun i eid => (n0 + i, ("/getEventById/" ++ eid)%string)) events
  /\ length (calls (sys p')) = n0 + length events
  /\ (events <> [] -> h = AwaitAllSettled ids)
  /\ (state (breaker (sys p)) = CLOSED ->
      breaker (sys p') = breaker (sys p)
      /\ forall i, i < length events ->
           calls (sys p') !! (n0 + i) = Some (mkCall false (clks i 0) (AwaitFetch 1)))
  /\ (forall evs h' s',
        serve evs h (sys p') = Some (h', s') ->
        match allSettled s' ids with
        | Some outcomes => h' = Done (Fulfilled (omap payload outcomes))
        | None => h' = AwaitAllSettled ids
        end)
  /\ (forall id clk r s1 s2 j,
        step (Wake id clk r) s1 = Some s2 -> j <> id -> calls s2 !! j = calls s1 !! j)
  /\ (forall clk r l b b1 l1 es b2,
        resume clk r l b = Some (b1, l1, es) ->
        exists b3, resume clk r l b2 = Some (b3, l1, es)).
Proof.
  intros Hlen Hfan n0 ids.
  destruct (fanOut_item_branch _ _ _ _ _ Hlen Hfan) as (ids' & Hmap & Hh).
  destruct (mapUpstream_arrivals _ _ _ _ _ _ Hmap) as (Hexec & -> & Hreq & Hcalls).
  rewrite List.length_map in *. fold n0 in Hexec, Hreq, Hcalls, Hh |- *. fold ids in Hh.
  split_and!.
  - rewrite <- Hexec. change (List.map itemPath events) with (itemPath <$> events).
    rewrite imap_fmap. reflexivity.
  - rewrite Hreq. change (List.map itemPath events) with (itemPath <$> events).
    rewrite imap_fmap. reflexivity.
  - exact Hcalls.
  - intros Hne. destruct Hh as [-> | [-> _]]; [reflexivity | congruence].
  - intros Hs. destruct (mapUpstream_closed _ _ _ _ _ _ Hs Hmap) as (Hb & Hc).
    split; [exact Hb |]. intros i Hi. rewrite Hc.
    rewrite lookup_app_r by (fold n0; lia). fold n0.
    replace (n0 + i - n0) with i by lia.
    rewrite list_lookup_imap.
    change (List.map itemPath events) with (itemPath <$> events).
    rewrite list_lookup_fmap.
    destruct (lookup_lt_is_Some_2 events i Hi) as [eid ->]. reflexivity.
  - intros evs h' s' Hserve. destruct Hh as [-> | [-> ->]].
    + apply (serve_allSettled _ _ _ _ _ Hserve).
    + cbn. rewrite (serve_done _ _ _ _ _ Hserve). reflexivity.
  - intros id clk r s1 s2 j. apply step_other_calls.
  - intros clk r l b b1 l1 es b2. apply resume_any_breaker.
Qed.

End WithFastify.

(** Identifiers 1, 2, 3 on a fresh process: three calls, all in flight
    when the handler suspends.  The call for 3 is answered first, the call
    for 2 is answered [404] and throws, the call for 1 is answered last:
    the handler returns the payloads of 1 and 3. *)
Lemma per_item_fan_out_witness :
  let clks := fun _ : nat => always 0 in
  let p := mkProcess boot [] in
  let p' := fst (fanOut (fastify := indexFastify) clks ["1"; "2"; "3"] p) in
  let h := snd (fanOut (fastify := indexFastify) clks ["1"; "2"; "3"] p) in
  let evs := outOfOrder (VStr "a") (VStr "c") in
  requests p' = [(0, "/getEventById/1"); (1, "/getEventById/2"); (2, "/getEventById/3")]
  /\ List.map inFlight (calls (sys p')) = [true; true; true]
  /\ (exists s', exec (fastify := indexFastify) evs (sys p') = Some s'
       /\ allSettled s' [0; 1; 2]
          = Some [Fulfilled (VStr "a"); Rejected undefinedHttpErrors;
                  Fulfilled (VStr "c")])
  /\ fst <$> serve (fastify := indexFastify) evs h (sys p')
     = Some (Done (Fulfilled [VStr "a"; VStr "c"])).
Proof.
  intros clks p p' h evs.
  destruct (per_item_fan_out (fastify := indexFastify) clks ["1"; "2"; "3"] p p' h)
    as (_ & Hreq & Hlen & _ & Hclosed & Hres & _).
  - vm_compute. lia.
  - vm_compute. reflexivity.
  - pose (s' := default boot (exec (fastify := indexFastify) evs (sys p'))).
    assert (Hall : allSettled s' [0; 1; 2]
                   = Some [Fulfilled (VStr "a"); Rejected undefinedHttpErrors;
                           Fulfilled (VStr "c")]).
    { vm_compute. reflexivity. }
    split_and!.
    + exact Hreq.
    + destruct (Hclosed eq_refl) as (_ & Hcalls).
      pose proof (Hcalls 0 ltac:(vm_compute; lia)) as H0.
      pose proof (Hcalls 1 ltac:(vm_compute; lia)) as H1.
      pose proof (Hcalls 2 ltac:(vm_compute; lia)) as H2.
      rewrite (three_calls _ _ _ _ Hlen H0 H1 H2). reflexivity.
    + exists s'. split; [vm_compute; reflexivity | exact Hall].
    + assert (Hserve : serve (fastify := indexFastify) evs h (sys p')
                       = Some (poll h s', s')).
      { vm_compute. reflexivity. }
      rewrite Hserve. cbn [fmap option_fmap option_map fst]. apply (f_equal Some).
      pose proof (Hres evs (poll h s') s' Hserve) as Hdone.
      change (seq (length (calls (sys p))) (length ["1"; "2"; "3"])) with [0; 1; 2]
        in Hdone.
      rewrite Hall in Hdone. exact Hdone.
Defined.

End FanOutSpec.

(** * Further properties of [utils/upstream.js] *)

Module UpstreamCallsSpec.
Import Js Upstream UpstreamCalls.
Local Open Scope Z_scope.

Section WithFastify.
Context {fastify : Fastify}.

(** ** The failure window *)

(** X1: after [recordFailure(ts)] no stored timestamp is older than
    [ts - 30000], [ts] is stored, and no earlier failure that lies in the
    window has been lost. *)
Theorem recordFailure_window (ts : Z) (b : Breaker) :
  Forall (fun t => ts - 30000 <= t) (failureTimes (recordFailure ts b))
  /\ In ts (failureTimes (recordFailure ts b))
  /\ (forall t, In t (failureTimes b) -> ts - 30000 <= t ->
        In t (failureTimes (recordFailure ts b))).
Proof.
  assert (Hft : failureTimes (recordFailure ts b)
            = List.filter (fun t => ts - FAILURE_WINDOW_MS <=? t) (failureTimes b) ++ [ts]).
  { unfold recordFailure. destruct (_ && _); reflexivity. }
  rewrite Hft. split_and!.
  - apply Forall_app. split.
    + apply List.Forall_forall. intros t Ht. apply List.filter_In in Ht.
      destruct Ht as [_ Ht]. apply Z.leb_le in Ht. unfold FAILURE_WINDOW_MS in Ht. exact Ht.
    + constructor; [lia | constructor].
  - apply in_or_app. right. left. reflexivity.
  - intros t Hin Hw. apply in_or_app. left. apply List.filter_In.
    split; [exact Hin |]. apply Z.leb_le. unfold FAILURE_WINDOW_MS. exact Hw.
Qed.

(** ** Breakers the process can reach *)

Lemma recordFailure_closedBound ts b : closedBound (recordFailure ts b).
Proof.
  unfold closedBound. destruct (state b) eqn:Hs.
  - rewrite UpstreamSpec.recordFailure_closed by assumption. cbn.
    destruct (FAILURE_THRESHOLD <=? _) eqn:Hth; cbn; [discriminate |].
    intros _. apply Z.leb_gt in Hth. unfold FAILURE_THRESHOLD in Hth. lia.
  - rewrite UpstreamSpec.recordFailure_not_closed by congruence. cbn. congruence.
  - rewrite UpstreamSpec.recordFailure_not_closed by congruence. cbn. congruence.
Qed.

Lemma pruneFailures_closedBound ts b : closedBound b -> closedBound (pruneFailures ts b).
Proof.
  unfold closedBound. cbn. intros Hinv Hs. specialize (Hinv Hs).
  pose proof (List.filter_length_le (fun t => ts - FAILURE_WINDOW_MS <=? t) (failureTimes b)).
  lia.
Qed.

Lemma finallyBlock_closedBound b : closedBound b -> closedBound (finallyBlock b).
Proof.
  unfold closedBound, finallyBlock. intros Hinv.
  destruct (STATE_eqb (state b) HALF_OPEN); cbn; exact Hinv.
Qed.

Lemma catchBlock_closedBound clk n err b b' l es :
  closedBound b -> catchBlock clk n err b = (b', l, es) -> closedBound b'.
Proof.
  intros Hinv. unfold catchBlock.
  pose proof (recordFailure_closedBound (clk 0%nat) b) as Hrf.
  destruct (_ || _).
  - intros [= <- _ _]. apply finallyBlock_closedBound.
    destruct (STATE_eqb _ HALF_OPEN); [intros Hs; discriminate Hs | exact Hrf].
  - intros [= <- _ _]. exact Hinv.
Qed.

Lemma start_closedBound clk b b' l es :
  closedBound b -> start clk b = (b', l, es) -> closedBound b'.
Proof.
  unfold closedBound, start, gate, loopHead.
  destruct b as [st ft ou np pf]; cbn. intros Hinv.
  destruct st; cbn; repeat (UpstreamSpec.break_if; cbn);
    intros [= <- _ _]; cbn; auto; discriminate.
Qed.

Lemma resume_closedBound clk r l b b' l' es :
  closedBound b -> resume clk r l b = Some (b', l', es) -> closedBound b'.
Proof.
  intros Hinv. unfold resume.
  destruct l, r; try discriminate; intros H;
    try (apply (inj Some) in H; eapply catchBlock_closedBound; eassumption).
  - destruct (res_ok status); injection H as <- _ _; [| assumption].
    destruct (STATE_eqb (state b) HALF_OPEN).
    + intros _. cbn. lia.
    + apply pruneFailures_closedBound, Hinv.
  - injection H as <- _ _. apply finallyBlock_closedBound, Hinv.
  - unfold loopHead in H. destruct (_ <=? _); injection H as <- _ _;
      apply finallyBlock_closedBound, Hinv.
Qed.

Lemma exec_closedBound evs : forall s s',
  closedBound (breaker s) -> exec evs s = Some s' -> closedBound (breaker s').
Proof.
  induction evs as [| ev evs IH]; intros s s' Hinv; cbn.
  - intros [= <-]. exact Hinv.
  - destruct (step ev s) as [s1 |] eqn:Hstep; [| discriminate].
    intros Hexec. eapply IH; [| exact Hexec].
    destruct ev as [clk | id clk r]; cbn in Hstep.
    + destruct (start clk (breaker s)) as [[b' l] es] eqn:Hst.
      injection Hstep as <-. cbn. eapply start_closedBound; eassumption.
    + destruct (calls s !! id) as [c |]; [| discriminate].
      destruct (resume clk r (cont c) (breaker s)) as [[[b' l] es] |] eqn:Hr;
        [| discriminate].
      injection Hstep as <-. cbn. eapply resume_closedBound; eassumption.
Qed.

(** X2: whatever calls have been made and however their segments interleaved
    since the process started: a CLOSED breaker stores at most two
    failures, and [probeInFlight] is set only in HALF_OPEN. *)
Theorem reachable_breaker_invariants (evs : list Event) (s : System) :
  exec evs boot = Some s ->
  (state (breaker s) = CLOSED -> (length (failureTimes (breaker s)) <= 2)%nat)
  /\ (probeInFlight (breaker s) = true -> state (breaker s) = HALF_OPEN).
Proof.
  intros Hexec. split.
  - intros Hs.
    pose proof (exec_closedBound evs boot s ltac:(intros _; cbn; lia) Hexec Hs). lia.
  - apply (UpstreamSpec.reachable_flag evs boot s); [intros H; discriminate H | exact Hexec].
Qed.

End WithFastify.

(** Two calls answered [400]: the breaker is still CLOSED, with two
    failures stored. *)
Lemma reachable_breaker_invariants_witness :
  (length (failureTimes (mkBreaker CLOSED [11; 13]%Z 0 0 false)) <= 2)%nat.
Proof.
  pose (evs := [Arrive (always 0); Arrive (always 1);
                Wake 0 (always 10) (FetchResponse 400); Wake 0 (always 11) TextSettled;
                Wake 1 (always 12) (FetchResponse 400); Wake 1 (always 13) TextSettled]).
  destruct (reachable_breaker_invariants (fastify := indexFastify) evs
              (default boot (exec (fastify := indexFastify) evs boot))) as [Hb _].
  - vm_compute. reflexivity.
  - apply Hb. vm_compute. reflexivity.
Defined.

Section WithFastify.
Context {fastify : Fastify}.

(** ** The gate *)

(** X3: a call is thrown out in its first segment exactly when the breaker is
    OPEN before [openUntil], or HALF_OPEN before [nextProbeAt], or OPEN or
    HALF_OPEN with [probeInFlight] set; a CLOSED breaker lets every call
    through.  A call that is let through starts its first fetch. *)
Theorem gate_short_circuits (clk : Clock) (b : Breaker) :
  let refused :=
    match state b with
    | CLOSED => false
    | OPEN => (clk 0%nat <? openUntil b) || probeInFlight b
    | HALF_OPEN => probeInFlight b || (clk 0%nat <? nextProbeAt b)
    end in
  if refused
  then exists b' e, start clk b = (b', Thrown e, [])
  else exists b', start clk b = (b', AwaitFetch 1, [Fetch 1]).
Proof.
  unfold start, gate, loopHead. destruct b as [st ft ou np pf]; cbn.
  destruct st; cbn.
  - eauto.
  - destruct (ou <=? clk 0%nat) eqn:Hle.
    + assert (Hlt : (clk 0%nat <? ou) = false) by lia. rewrite Hlt. cbn.
      destruct pf; cbn; [eauto |].
      rewrite Z.ltb_irrefl. cbn. eauto.
    + assert (Hlt : (clk 0%nat <? ou) = true) by lia. rewrite Hlt. cbn. eauto.
  - destruct (pf || (clk 0%nat <? np)); cbn; eauto.
Qed.

(** X4: a call thrown out by the HALF_OPEN check leaves the breaker as it
    was and fetches nothing.  With @fastify/sensible registered its error
    is the 503 error whose Retry-After is
    [ceil((nextProbeAt - now)/1000)]; with the instance of
    [services/index.js] it is the TypeError of line 206, with no
    Retry-After.  The value computed for the hint is at least 1 before
    [nextProbeAt] and zero or negative from [nextProbeAt] on, when the call
    is refused because a probe is in flight. *)
Theorem half_open_rejection_hint (clk : Clock) (b : Breaker) :
  state b = HALF_OPEN ->
  probeInFlight b = true \/ clk 0%nat < nextProbeAt b ->
  let hint := ceil_div (nextProbeAt b - clk 0%nat) 1000 in
  let e := throwUnavailable "Upstream circuit half-open" hint in
  start clk b = (b, Thrown e, [])
  /\ (httpErrors = Some serviceUnavailable ->
      e = withRetryAfter hint (serviceUnavailable "Upstream circuit half-open")
      /\ statusCode e = Some 503
      /\ header "Retry-After" (headers e) = Some hint)
  /\ (httpErrors = None ->
      e = undefinedHttpErrors /\ statusCode e = None
      /\ header "Retry-After" (headers e) = None)
  /\ (clk 0%nat < nextProbeAt b <-> 1 <= hint).
Proof.
  intros Hs Hcond hint e. split_and!.
  - unfold start, gate. rewrite Hs. cbn.
    assert (Hc : probeInFlight b || (clk 0%nat <? nextProbeAt b) = true).
    { destruct Hcond as [-> | Hlt]; [reflexivity |].
      apply orb_true_iff. right. apply Z.ltb_lt. exact Hlt. }
    rewrite Hs. cbn. rewrite Hc. reflexivity.
  - intros Hplugin. unfold e.
    rewrite (UpstreamSpec.throwUnavailable_sensible _ _ Hplugin).
    split_and!; reflexivity.
  - intros Hnone. apply UpstreamSpec.throwUnavailable_bare, Hnone.
  - pose proof (UpstreamSpec.ceil_div_spec (nextProbeAt b - clk 0%nat) 1000 ltac:(lia)) as Hc.
    fold hint in Hc. lia.
Qed.

End WithFastify.

(** A probe is in flight and the next probe slot was 400 ms ago, and the
    call is made as [services/index.js] makes it: it is thrown out with
    the TypeError. *)
Lemma half_open_rejection_hint_witness :
  start (fastify := indexFastify) (always 36400)
    (mkBreaker HALF_OPEN [] 30015 36000 true)
  = (mkBreaker HALF_OPEN [] 30015 36000 true, Thrown undefinedHttpErrors, [])
  /\ header "Retry-After" (headers undefinedHttpErrors) = None.
Proof.
  destruct (half_open_rejection_hint (fastify := indexFastify) (always 36400)
              (mkBreaker HALF_OPEN [] 30015 36000 true))
    as (Hstart & _ & Hwired & _).
  - reflexivity.
  - left. reflexivity.
  - destruct (Hwired eq_refl) as (Herr & _ & Hhint).
    rewrite Herr in Hstart, Hhint. split; [exact Hstart | exact Hhint].
Defined.

Section WithFastify.
Context {fastify : Fastify}.

(** ** Attempts, sleeps and wake-ups of one call *)

Lemma fetches_app es es' : fetches (es ++ es') = (fetches es + fetches es')%nat.
Proof. unfold fetches. rewrite List.filter_app, length_app. reflexivity. Qed.

Lemma sleeps_app es es' : sleeps (es ++ es') = sleeps es ++ sleeps es'.
Proof. unfold sleeps. rewrite List.map_app, List.concat_app. reflexivity. Qed.

(** The two ways out of the [catch] clause. *)
Lemma catchBlock_shape clk n err b :
  (exists b', catchBlock clk n err b = (b', Thrown unavailable, [ReportFailure (clk 0%nat)]))
  \/ (transient err = true /\ n <= 2
      /\ catchBlock clk n err b = (b, AwaitSleep n, [Sleep (100 * 2 ^ (n - 1))])).
Proof.
  unfold catchBlock. destruct (transient err); cbn.
  - destruct (MAX_RETRIES <? n) eqn:Hn; [left; eexists; reflexivity |].
    right. apply Z.ltb_ge in Hn. unfold MAX_RETRIES in Hn. auto.
  - left. eexists. reflexivity.
Qed.

End WithFastify.

Ltac attempt_cases H :=
  destruct H as [(-> & Hf & Hsl) | [(-> & Hf & Hsl) | (-> & Hf & Hsl)]].

Section WithFastify.
Context {fastify : Fastify}.

Lemma resume_attempt c r l b b' l' es es' :
  resume c r l b = Some (b', l', es') ->
  attemptInvariant l es ->
  attemptInvariant l' (es ++ es')
  /\ 0 <= wakeUpsLeft l' < wakeUpsLeft l
  /\ (forall v, l' = Returned v -> r = JsonParsed v).
Proof.
  unfold resume. intros Hr Hinv.
  destruct l, r; try discriminate Hr; cbn in Hinv.
  - destruct (res_ok status); injection Hr as <- <- <-; cbn;
      rewrite fetches_app, sleeps_app; cbn; rewrite Nat.add_0_r, app_nil_r;
      (split; [exact Hinv |]); (split; [| discriminate]);
      attempt_cases Hinv; lia.
  - apply (inj Some) in Hr.
    destruct (catchBlock_shape c attempt (caught TimedOut) b) as [[b1 H] | (_ & Hn & H)];
      rewrite H in Hr; injection Hr as <- <- <-; cbn;
      rewrite fetches_app, sleeps_app; cbn; rewrite Nat.add_0_r, ?app_nil_r.
    + split; [| split; [| discriminate]]; attempt_cases Hinv;
        rewrite ?Hf, ?Hsl; try lia; split; auto; lia.
    + split; [| split; [| discriminate]]; attempt_cases Hinv;
        rewrite ?Hf, ?Hsl; try lia; cbn; auto.
  - apply (inj Some) in Hr.
    destruct (catchBlock_shape c attempt (caught NetworkDown) b) as [[b1 H] | (Ht & _)];
      [| discriminate Ht].
    rewrite H in Hr; injection Hr as <- <- <-; cbn.
    rewrite fetches_app, sleeps_app; cbn; rewrite Nat.add_0_r, ?app_nil_r.
    split; [| split; [| discriminate]]; attempt_cases Hinv;
      rewrite ?Hf, ?Hsl; try lia; split; auto; lia.
  - apply (inj Some) in Hr.
    destruct (catchBlock_shape c attempt (caught (BadStatus status)) b)
      as [[b1 H] | (_ & Hn & H)];
      rewrite H in Hr; injection Hr as <- <- <-; cbn;
      rewrite fetches_app, sleeps_app; cbn; rewrite Nat.add_0_r, ?app_nil_r.
    + split; [| split; [| discriminate]]; attempt_cases Hinv;
        rewrite ?Hf, ?Hsl; try lia; split; auto; lia.
    + split; [| split; [| discriminate]]; attempt_cases Hinv;
        rewrite ?Hf, ?Hsl; try lia; cbn; auto.
  - injection Hr as <- <- <-. cbn. rewrite app_nil_r.
    split; [| split; [lia | intros v' [= ->]; reflexivity]].
    attempt_cases Hinv; rewrite Hf, Hsl; split; auto; lia.
  - apply (inj Some) in Hr.
    destruct (catchBlock_shape c attempt (caught BadBody) b) as [[b1 H] | (Ht & _)];
      [| discriminate Ht].
    rewrite H in Hr; injection Hr as <- <- <-; cbn.
    rewrite fetches_app, sleeps_app; cbn; rewrite Nat.add_0_r, ?app_nil_r.
    split; [| split; [lia | discriminate]]; attempt_cases Hinv;
      rewrite ?Hf, ?Hsl; split; auto; lia.
  - destruct Hinv as [(-> & Hf & Hsl) | (-> & Hf & Hsl)];
      cbn in Hr; injection Hr as <- <- <-; cbn;
      rewrite fetches_app, sleeps_app; cbn; rewrite app_nil_r, Hf, Hsl;
      (split; [auto |]); (split; [lia | discriminate]).
Qed.

Lemma start_attempt clk b b' l es :
  start clk b = (b', l, es) ->
  attemptInvariant l es /\ wakeUpsLeft l <= 8 /\ (forall v, l <> Returned v).
Proof.
  unfold start, loopHead. destruct (gate (clk 0%nat) b) as [b1 [e |]]; cbn;
    intros [= <- <- <-]; cbn; split_and!; auto; try lia; discriminate.
Qed.

Lemma run_attempt script : forall b l es b' l' es',
  run script (b, l, es) = (b', l', es') ->
  attemptInvariant l es ->
  attemptInvariant l' es'
  /\ (forall v, l' = Returned v -> l = Returned v \/ exists c, In (c, JsonParsed v) script).
Proof.
  induction script as [| [c r] rest IH]; intros b l es b' l' es'; cbn.
  - intros [= <- <- <-] H. auto.
  - destruct (resume c r l b) as [[[b1 l1] es1] |] eqn:Hr.
    + intros Hrun Hinv.
      destruct (resume_attempt _ _ _ _ _ _ _ _ Hr Hinv) as (Hinv1 & _ & Hret).
      destruct (IH _ _ _ _ _ _ Hrun Hinv1) as (Hinv' & Hret').
      split; [exact Hinv' |]. intros v Hv. right.
      destruct (Hret' v Hv) as [-> | (c' & Hin)]; [| eauto].
      exists c. left. rewrite (Hret v eq_refl). reflexivity.
    + intros [= <- <- <-] H. auto.
Qed.

(** X5: whatever the breaker and however the attempts go, one call of
    [upstream] fetches at most three times and sleeps 100 ms and then
    200 ms at most; and what it returns is what [res.json()] resolved to:
    it never falls off the retry loop. *)
Theorem call_attempts_bounded clk script b b' l es :
  upstream clk script b = (b', l, es) ->
  (fetches es <= 3)%nat
  /\ (sleeps es = [] \/ sleeps es = [100] \/ sleeps es = [100; 200])
  /\ (forall v, l = Returned v -> exists c, In (c, JsonParsed v) script).
Proof.
  unfold upstream. destruct (start clk b) as [[b0 l0] es0] eqn:Hst. intros Hrun.
  destruct (start_attempt _ _ _ _ _ Hst) as (Hinv0 & _ & Hnot).
  destruct (run_attempt _ _ _ _ _ _ _ Hrun Hinv0) as (Hinv & Hret).
  split_and!.
  - destruct l; cbn in Hinv; try attempt_cases Hinv; try lia;
      destruct Hinv as [(_ & Hf & _) | (_ & Hf & _)]; lia.
  - destruct l; cbn in Hinv; try attempt_cases Hinv; try tauto; auto;
      destruct Hinv as [(_ & _ & Hs) | (_ & _ & Hs)]; auto.
  - intros v Hv. destruct (Hret v Hv) as [H0 | H]; [| exact H].
    exfalso. exact (Hnot v H0).
Qed.

End WithFastify.

(** Three answers [503]: three fetches, sleeps of 100 and 200 ms. *)
Lemma call_attempts_bounded_witness :
  (fetches [Fetch 1; Sleep 100; Fetch 2; Sleep 200; Fetch 3; ReportFailure 8] <= 3)%nat.
Proof.
  pose (script := [(always 1, FetchResponse 503); (always 2, TextSettled);
                   (always 3, SleepOver);
                   (always 4, FetchResponse 503); (always 5, TextSettled);
                   (always 6, SleepOver);
                   (always 7, FetchResponse 503); (always 8, TextSettled)]).
  apply (call_attempts_bounded (fastify := indexFastify) (always 0) script initial
           (mkBreaker CLOSED [8] 0 0 false)
           (Thrown (unavailable (fastify := indexFastify)))).
  vm_compute. reflexivity.
Defined.

Section WithFastify.
Context {fastify : Fastify}.

Lemma runStrict_wakeUps script : forall b l es b' l' es',
  runStrict script (b, l, es) = Some (b', l', es') ->
  attemptInvariant l es ->
  Z.of_nat (length script) + wakeUpsLeft l' <= wakeUpsLeft l /\ 0 <= wakeUpsLeft l'
  /\ attemptInvariant l' es'.
Proof.
  induction script as [| [c r] rest IH]; intros b l es b' l' es'; cbn [runStrict].
  - intros [= <- <- <-] Hinv. split; [cbn; lia |]. split; [| exact Hinv].
    destruct l; cbn in *; try attempt_cases Hinv; try lia;
      destruct Hinv as [(-> & _) | (-> & _)]; lia.
  - destruct (resume c r l b) as [[[b1 l1] es1] |] eqn:Hr; [| discriminate].
    intros Hrun Hinv.
    destruct (resume_attempt _ _ _ _ _ _ _ _ Hr Hinv) as (Hinv1 & Hdec & _).
    destruct (IH _ _ _ _ _ _ Hrun Hinv1) as (Hlen & Hpos & Hinv').
    split; [| auto]. rewrite length_cons. lia.
Qed.

(** X6: a call is over after at most eight wake-ups: a script all of whose
    wake-ups the call accepts has at most eight of them, and after eight
    the call has returned or thrown. *)
Theorem call_wake_ups_bounded clk script b b' l es :
  runStrict script (start clk b) = Some (b', l, es) ->
  (length script <= 8)%nat
  /\ (length script = 8%nat -> finished l = true).
Proof.
  destruct (start clk b) as [[b0 l0] es0] eqn:Hst. intros Hrun.
  destruct (start_attempt _ _ _ _ _ Hst) as (Hinv0 & Hmax & _).
  destruct (runStrict_wakeUps _ _ _ _ _ _ _ Hrun Hinv0) as (Hlen & Hpos & Hinv).
  split; [lia |]. intros H8.
  destruct l; cbn in *; try reflexivity; exfalso;
    try attempt_cases Hinv; try lia;
    destruct Hinv as [(-> & _) | (-> & _)]; lia.
Qed.

End WithFastify.

(** The longest call: three answers [503], each read and, but for the
    last, slept on. *)
Lemma call_wake_ups_bounded_witness :
  finished (Thrown (unavailable (fastify := indexFastify))) = true.
Proof.
  pose (script := [(always 1, FetchResponse 503); (always 2, TextSettled);
                   (always 3, SleepOver);
                   (always 4, FetchResponse 503); (always 5, TextSettled);
                   (always 6, SleepOver);
                   (always 7, FetchResponse 503); (always 8, TextSettled)]).
  apply (call_wake_ups_bounded (fastify := indexFastify) (always 0) script initial
           (mkBreaker CLOSED [8] 0 0 false)
           (Thrown (unavailable (fastify := indexFastify)))
           [Fetch 1; Sleep 100; Fetch 2; Sleep 200; Fetch 3; ReportFailure 8]).
  - vm_compute. reflexivity.
  - reflexivity.
Defined.

Section WithFastify.
Context {fastify : Fastify}.

(** ** Successes and failures on a closed breaker *)

Lemma filter_window_twice t' ts (l : list Z) :
  t' <= ts ->
  List.filter (fun t => ts - FAILURE_WINDOW_MS <=? t)
    (List.filter (fun t => t' - FAILURE_WINDOW_MS <=? t) l)
  = List.filter (fun t => ts - FAILURE_WINDOW_MS <=? t) l.
Proof.
  intros Hle. induction l as [| x l IH]; cbn; [reflexivity |].
  destruct (t' - FAILURE_WINDOW_MS <=? x) eqn:H1; cbn.
  - rewrite IH. reflexivity.
  - rewrite IH. destruct (ts - FAILURE_WINDOW_MS <=? x) eqn:H2; [lia | reflexivity].
Qed.

(** X7: a success on a CLOSED breaker forgives nothing: it only prunes the
    window.  When the failures stored and a failure at [ts] make three in
    the window of [ts], a 2xx response handled at or before [ts] leaves the
    breaker CLOSED, and the failure at [ts] still opens it. *)
Theorem closed_success_keeps_failures (clk : Clock) (status n ts : Z) (b : Breaker) :
  state b = CLOSED -> res_ok status = true -> clk 0%nat <= ts ->
  (3 <= length (List.filter (fun t => (ts - 30000 <=? t)%Z)
                  (failureTimes b ++ [ts])))%nat ->
  exists b1,
    resume clk (FetchResponse status) (AwaitFetch n) b
    = Some (b1, AwaitJson n, [ReportSuccess])
    /\ state b1 = CLOSED
    /\ state (recordFailure ts b1) = OPEN
    /\ openUntil (recordFailure ts b1) = ts + 30000.
Proof.
  intros Hs Hok Hle Hcount. exists (pruneFailures (clk 0%nat) b).
  split; [cbn; rewrite Hok, Hs; reflexivity |].
  split; [exact Hs |].
  rewrite UpstreamSpec.recordFailure_closed by exact Hs. cbn.
  rewrite filter_window_twice by exact Hle.
  rewrite List.filter_app, length_app in Hcount. cbn in Hcount.
  destruct (ts - 30000 <=? ts) eqn:Hin; [| lia]. cbn in Hcount.
  rewrite length_app. cbn.
  destruct (FAILURE_THRESHOLD <=? _) eqn:Hth; [cbn; auto |].
  apply Z.leb_gt in Hth. unfold FAILURE_THRESHOLD, FAILURE_WINDOW_MS in Hth. lia.
Qed.

End WithFastify.

(** Failures at 100 and 200 ms, a success at 250 ms, a failure at 300 ms. *)
Lemma closed_success_keeps_failures_witness :
  state (recordFailure 300 (pruneFailures 250 (mkBreaker CLOSED [100; 200] 0 0 false)))
  = OPEN.
Proof.
  destruct (closed_success_keeps_failures (fastify := indexFastify) (always 250) 200 1 300
              (mkBreaker CLOSED [100; 200] 0 0 false)) as (b1 & Hr & _ & Ho & _).
  - reflexivity.
  - reflexivity.
  - vm_compute. discriminate.
  - vm_compute. lia.
  - cbn in Hr. injection Hr as <-. exact Ho.
Defined.

(** ** From OPEN back to CLOSED *)

#[local] Arguments catchBlock : simpl never.
#[local] Arguments caught : simpl never.

Section WithFastify.
Context {fastify : Fastify}.



End WithFastify.


End UpstreamCallsSpec.

(** * Properties of the routes of [services/index.js] *)

Module HandlersSpec.
Import Js Routes Handlers.

(** ** The user lookup and its guard *)

(** X9: when the user lookup fails the handler throws the same error, and when
    the user is [null], has no [events] key, or has [events] that is
    [null] or empty, the handler returns the empty list; in all these
    cases the user lookup is the only request. *)
Theorem route_without_events (id : string)
  (lookup : string -> Outcome Value) (up : nat -> string -> Outcome Value) :
  (forall e, lookup (userPath id) = Rejected e ->
     getEventsByUserIdRoute id lookup up = ([userPath id], Rejected e))
  /\ (forall user,
       lookup (userPath id) = Fulfilled user ->
       user = VNull
       \/ (exists fields, user = VObj fields
            /\ (field "events" fields = VUndefined
                \/ field "events" fields = VNull
                \/ field "events" fields = VArr [])) ->
       getEventsByUserIdRoute id lookup up = ([userPath id], Fulfilled [])).
Proof.
  split.
  - intros e He. unfold getEventsByUserIdRoute. rewrite He. reflexivity.
  - intros user Hu Hshape. unfold getEventsByUserIdRoute. rewrite Hu.
    destruct Hshape as [-> | (fields & -> & [H | [H | H]])];
      [reflexivity | | |]; unfold eventsOf; rewrite H; reflexivity.
Qed.

(** A user without the [events] key; a failed lookup. *)
Lemma route_without_events_witness :
  getEventsByUserIdRoute "7" (fun _ => Fulfilled (VObj [("name", VStr "Ann")]))
    (fun _ _ => Fulfilled VNull)
  = (["/getUserById/7"], Fulfilled [])
  /\ getEventsByUserIdRoute "7" (fun _ => Rejected Routes.finalFailure)
       (fun _ _ => Fulfilled VNull)
     = (["/getUserById/7"], Rejected Routes.finalFailure).
Proof.
  split.
  - apply (route_without_events "7"
             (fun _ => Fulfilled (VObj [("name", VStr "Ann")])) (fun _ _ => Fulfilled VNull))
      with (user := VObj [("name", VStr "Ann")]); [reflexivity |].
    right. eexists. split; [reflexivity |]. left. reflexivity.
  - apply (route_without_events "7" (fun _ => Rejected Routes.finalFailure)).
    reflexivity.
Defined.

Lemma eventsOf_items fields items :
  field "events" fields = VArr items -> items <> [] ->
  eventsOf (VObj fields) = Items items.
Proof.
  intros Hf Hne. unfold eventsOf. rewrite Hf.
  destruct items; [congruence | reflexivity].
Qed.

(** X10: for a user with [n >= 1] event identifiers the handler makes the user
    lookup and then [n] requests when [n <= 50], [ceil(n / 50)] requests
    otherwise: never more than [n + 1] requests in all. *)
Theorem route_request_count (id : string) (fields : list (string * Value))
  (items : list Value)
  (lookup : string -> Outcome Value) (up : nat -> string -> Outcome Value) :
  lookup (userPath id) = Fulfilled (VObj fields) ->
  field "events" fields = VArr items -> items <> [] ->
  let requests := fst (getEventsByUserIdRoute id lookup up) in
  length requests
  = 1 + (if length items <=? 50 then length items else (length items + 49) / 50)
  /\ length requests <= 1 + length items.
Proof.
  intros Hu Hf Hne requests.
  assert (Hreq : length requests
            = 1 + (if length items <=? 50 then length items
                   else (length items + 49) / 50)).
  { unfold requests, getEventsByUserIdRoute.
    rewrite Hu, (eventsOf_items fields items Hf Hne).
    unfold smallEventSize.
    destruct (50 <? length items) eqn:Hlt.
    - apply Nat.ltb_lt in Hlt.
      rewrite RoutesSpec.handler_chunked_branch by (rewrite List.length_map; exact Hlt).
      cbn [fst]. rewrite length_cons, List.length_map, RoutesSpec.chunked_length,
        List.length_map.
      destruct (length items <=? 50) eqn:Hle; [apply Nat.leb_le in Hle; lia |].
      reflexivity.
    - apply Nat.ltb_ge in Hlt.
      rewrite RoutesSpec.handler_item_branch by (rewrite List.length_map; exact Hlt).
      cbn [fst]. rewrite length_cons, !List.length_map.
      destruct (length items <=? 50) eqn:Hle; [reflexivity |].
      apply Nat.leb_gt in Hle. lia. }
  split; [exact Hreq |]. rewrite Hreq.
  destruct (length items <=? 50); [lia |].
  assert ((length items + 49) / 50 <= length items); [| lia].
  destruct items as [| x items]; [congruence |]. cbn [length].
  apply Nat.Div0.div_le_upper_bound. lia.
Qed.

(** 120 identifiers: the lookup and three batched requests. *)
Lemma route_request_count_witness :
  length (fst (getEventsByUserIdRoute "7"
                 (fun _ => Fulfilled (VObj [("events", VArr (repeat (VNum 1) 120))]))
                 (fun _ _ => Fulfilled (VArr [])))) = 4.
Proof.
  apply (route_request_count "7" [("events", VArr (repeat (VNum 1) 120))]
           (repeat (VNum 1) 120)
           (fun _ => Fulfilled (VObj [("events", VArr (repeat (VNum 1) 120))]))
           (fun _ _ => Fulfilled (VArr []))).
  - reflexivity.
  - reflexivity.
  - discriminate.
Defined.

(** ** What the fan-out returns *)

Lemma omap_payload_fulfilled (rs : list (Outcome Value)) :
  Forall (fun r => fulfilled r = true) rs ->
  omap payload rs = List.map value rs.
Proof.
  induction 1 as [| r rs Hr _ IH]; [reflexivity |].
  destruct r as [v | e]; [| discriminate Hr]. cbn. rewrite IH. reflexivity.
Qed.

(** X11: on the per-item path, when every call fulfils, the handler returns the
    payloads in the order of the identifiers, one per identifier, falsy
    payloads such as [null] included. *)
Theorem per_item_order_kept (events : list Id) (up : nat -> string -> Outcome Value) :
  length events <= 50 ->
  (forall i eid, events !! i = Some eid -> fulfilled (up i (itemPath eid)) = true) ->
  snd (getEventsByUserId events up)
  = Fulfilled (imap (fun i eid => value (up i (itemPath eid))) events)
  /\ (forall payloads, snd (getEventsByUserId events up) = Fulfilled payloads ->
        length payloads = length events).
Proof.
  intros Hlen Hall.
  assert (Hres : snd (getEventsByUserId events up)
            = Fulfilled (imap (fun i eid => value (up i (itemPath eid))) events)).
  { rewrite RoutesSpec.handler_item_branch by exact Hlen. cbn [snd]. f_equal.
    rewrite omap_payload_fulfilled.
    - change (value <$> imap up (itemPath <$> events)
              = imap (fun i eid => value (up i (itemPath eid))) events).
      apply list_eq. intros i.
      rewrite list_lookup_fmap, !list_lookup_imap, list_lookup_fmap.
      destruct (events !! i); reflexivity.
    - apply Forall_lookup. intros i r Hr.
      change (imap up (itemPath <$> events) !! i = Some r) in Hr.
      rewrite list_lookup_imap, list_lookup_fmap in Hr.
      destruct (events !! i) as [eid |] eqn:He; [| discriminate Hr].
      cbn in Hr. injection Hr as <-. apply (Hall i eid He). }
  split; [exact Hres |].
  intros payloads Hp. rewrite Hres in Hp. injection Hp as <-. apply length_imap.
Qed.

(** Two identifiers; the first call returns [null]. *)
Lemma per_item_order_kept_witness :
  snd (getEventsByUserId ["1"; "2"]
         (fun i _ => if (i =? 0)%nat then Fulfilled VNull else Fulfilled (VNum 2)))
  = Fulfilled [VNull; VNum 2].
Proof.
  apply (per_item_order_kept ["1"; "2"]
           (fun i _ => if (i =? 0)%nat then Fulfilled VNull else Fulfilled (VNum 2))).
  - cbn. lia.
  - intros i eid _. destruct (i =? 0)%nat; reflexivity.
Defined.

(** X12: on the chunked path, whatever the batched calls return, no entry of
    the handler's result is falsy, and every entry is an element of the
    array one batched call returned, or is itself what a batched call
    returned when that is not an array. *)
Theorem chunked_result_truthy (events : list Id) (up : nat -> string -> Outcome Value)
  (entries : list Value) :
  50 < length events ->
  snd (getEventsByUserId events up) = Fulfilled entries ->
  Forall (fun v => truthy v = true) entries
  /\ (forall v, In v entries ->
        exists i batch r,
          chunked events !! i = Some batch
          /\ up i (batchPath batch) = Fulfilled r
          /\ match r with VArr elems => In v elems | _ => v = r end).
Proof.
  intros Hlen. rewrite RoutesSpec.handler_chunked_branch by exact Hlen. cbn [snd].
  destruct (promiseAll (imap up (List.map batchPath (chunked events)))) as [rs | e] eqn:Hall;
    [| discriminate].
  intros [= <-]. split.
  - apply List.Forall_forall. intros v Hv. apply List.filter_In in Hv. tauto.
  - intros v Hv. apply List.filter_In in Hv. destruct Hv as [Hv _].
    unfold flat in Hv. apply List.in_concat in Hv. destruct Hv as (l & Hl & Hvl).
    apply List.in_map_iff in Hl. destruct Hl as (r & <- & Hr).
    assert (Hrs : forall ps (vs : list Value),
              promiseAll ps = Fulfilled vs -> ps = List.map Fulfilled vs).
    { induction ps as [| [p | e] ps IH]; cbn; intros vs H.
      - injection H as <-. reflexivity.
      - destruct (promiseAll ps) as [vs' |]; [| discriminate H].
        injection H as <-. cbn. rewrite (IH vs' eq_refl). reflexivity.
      - discriminate H. }
    apply Hrs in Hall.
    apply list_elem_of_In, list_elem_of_lookup in Hr. destruct Hr as [i Hi].
    assert (Hi' : imap up (List.map batchPath (chunked events)) !! i = Some (Fulfilled r)).
    { rewrite Hall, list_lookup_fmap, Hi. reflexivity. }
    rewrite list_lookup_imap, list_lookup_fmap in Hi'.
    destruct (chunked events !! i) as [batch |] eqn:Hb; [| discriminate Hi'].
    cbn in Hi'. injection Hi' as Hup.
    exists i, batch, r. split; [exact Hb |]. split; [exact Hup |].
    destruct r; cbn in Hvl; try (destruct Hvl as [<- | []]; reflexivity).
    exact Hvl.
Qed.

(** 51 identifiers; the first batch returns [[1, null]], the second an
    object instead of an array. *)
Lemma chunked_result_truthy_witness :
  Forall (fun v => truthy v = true) [VNum 1; VObj [("id", VNum 2)]].
Proof.
  apply (chunked_result_truthy fiftyOneEvents
           (fun i _ => if (i =? 0)%nat then Fulfilled (VArr [VNum 1; VNull])
                       else Fulfilled (VObj [("id", VNum 2)]))).
  - vm_compute. lia.
  - vm_compute. reflexivity.
Defined.

(** ** [POST /addEvent] and the errors of [upstream] *)

Section AddEvent.
Import Upstream.
Local Open Scope Z_scope.

Section WithFastify.
Context {fastify : Fastify}.

Lemma start_half_open_rejects clk b :
  state b = HALF_OPEN ->
  probeInFlight b = true \/ clk 0%nat < nextProbeAt b ->
  start clk b
  = (b, Thrown (throwUnavailable "Upstream circuit half-open"
                  (ceil_div (nextProbeAt b - clk 0%nat) 1000)), []).
Proof.
  intros Hs Hcond. unfold start, gate. rewrite Hs. cbn. rewrite Hs. cbn.
  assert (Hc : probeInFlight b || (clk 0%nat <? nextProbeAt b) = true).
  { destruct Hcond as [-> | Hlt]; [reflexivity |].
    apply orb_true_iff. right. apply Z.ltb_lt. exact Hlt. }
  rewrite Hc. reflexivity.
Qed.

(** X13: when its call of [upstream] throws, the handler of [POST /addEvent]
    sends nothing and rethrows the error.  With the [fastify] instance of
    [services/index.js], which has no [httpErrors], the error has no
    status code and the handler never sets the reply header Retry-After.
    With @fastify/sensible registered, after a final failure (the call had
    fetched) it first sets Retry-After to 30; when the call was thrown out
    by an OPEN breaker it sets Retry-After to
    [ceil((openUntil - now)/1000)], which is at least 1. *)
Theorem addEvent_forwards_retry_after clk script b b' e es :
  upstream clk script b = (b', Thrown e, es) ->
  addEvent (Rejected e)
  = mkReply None (retryAfter (addEvent (Rejected e))) None (Some e)
  /\ (httpErrors = None ->
      e = undefinedHttpErrors /\ retryAfter (addEvent (Rejected e)) = None)
  /\ (httpErrors = Some serviceUnavailable ->
      (es <> [] -> retryAfter (addEvent (Rejected e)) = Some 30)
      /\ (state b = OPEN -> clk 0%nat < openUntil b ->
          retryAfter (addEvent (Rejected e))
          = Some (ceil_div (openUntil b - clk 0%nat) 1000)
          /\ 1 <= ceil_div (openUntil b - clk 0%nat) 1000)).
Proof.
  intros Hup. split; [reflexivity |]. split.
  - intros Hnone.
    destruct (UpstreamSpec.upstream_thrown _ _ _ _ _ _ Hup) as ((msg & v & ->) & _).
    rewrite (UpstreamSpec.throwUnavailable_undefined _ _ Hnone).
    split; reflexivity.
  - intros Hplugin. split.
    + intros Hne.
      destruct (UpstreamSpec.upstream_thrown _ _ _ _ _ _ Hup) as (_ & Hfinal).
      rewrite (Hfinal Hne). unfold unavailable.
      rewrite (UpstreamSpec.throwUnavailable_sensible _ _ Hplugin). reflexivity.
    + intros Hs Hlt. unfold upstream in Hup.
      rewrite UpstreamSpec.start_open_rejects in Hup by assumption.
      rewrite UpstreamSpec.run_thrown in Hup. injection Hup as _ <- _.
      pose proof (UpstreamSpec.ceil_div_spec (openUntil b - clk 0%nat) 1000 ltac:(lia))
        as Hc.
      assert (Hpos : 1 <= ceil_div (openUntil b - clk 0%nat) 1000) by lia.
      split; [| exact Hpos]. unfold openRejection.
      rewrite (UpstreamSpec.throwUnavailable_sensible _ _ Hplugin). cbn.
      destruct (ceil_div (openUntil b - clk 0%nat) 1000 =? 0) eqn:H0; [lia | reflexivity].
Qed.

End WithFastify.

(** A call of the handler thrown out 5 s before the end of the cool-down:
    the error is the TypeError, and no Retry-After is set. *)
Lemma addEvent_forwards_retry_after_witness :
  let tripped := mkBreaker OPEN [100; 200; 300] 30300 0 false in
  upstream (fastify := indexFastify) (always 25300) [] tripped
  = (tripped, Thrown undefinedHttpErrors, [])
  /\ retryAfter (addEvent (Rejected undefinedHttpErrors)) = None.
Proof.
  intros tripped.
  assert (Hup : upstream (fastify := indexFastify) (always 25300) [] tripped
                = (tripped, Thrown undefinedHttpErrors, [])).
  { vm_compute. reflexivity. }
  split; [exact Hup |].
  destruct (addEvent_forwards_retry_after (fastify := indexFastify)
              _ _ _ _ _ _ Hup) as (_ & Hwired & _).
  destruct (Hwired eq_refl) as (_ & Hnone). exact Hnone.
Defined.

Section WithFastify.
Context {fastify : Fastify}.

(** X14: a call thrown out in HALF_OPEN because a probe is in flight, less
    than a second after [nextProbeAt].  With @fastify/sensible registered
    it gets a 503 error whose Retry-After is 0; with the instance of
    [services/index.js] it gets the TypeError.  Either way the handler of
    [POST /addEvent] rethrows it without setting the reply header. *)
Theorem addEvent_drops_zero_hint clk script b :
  state b = HALF_OPEN -> probeInFlight b = true ->
  nextProbeAt b <= clk 0%nat < nextProbeAt b + 1000 ->
  exists e,
    upstream clk script b = (b, Thrown e, [])
    /\ (httpErrors = Some serviceUnavailable ->
        statusCode e = Some 503 /\ header "Retry-After" (headers e) = Some 0
        /\ addEvent (Rejected e) = mkReply None None None (Some e))
    /\ (httpErrors = None ->
        e = undefinedHttpErrors
        /\ addEvent (Rejected e) = mkReply None None None (Some e)).
Proof.
  intros Hs Hp Hclk. eexists. unfold upstream.
  rewrite start_half_open_rejects by auto. rewrite UpstreamSpec.run_thrown.
  pose proof (UpstreamSpec.ceil_div_spec (nextProbeAt b - clk 0%nat) 1000 ltac:(lia)) as Hc.
  assert (H0 : ceil_div (nextProbeAt b - clk 0%nat) 1000 = 0) by lia.
  rewrite H0. split_and!; [reflexivity | |].
  - intros Hplugin. rewrite (UpstreamSpec.throwUnavailable_sensible _ _ Hplugin).
    split_and!; reflexivity.
  - intros Hnone. rewrite (UpstreamSpec.throwUnavailable_undefined _ _ Hnone).
    split; reflexivity.
Qed.

End WithFastify.

(** A probe is in flight and the next probe slot was 400 ms ago. *)
Lemma addEvent_drops_zero_hint_witness :
  retryAfter (addEvent (Rejected
    (withRetryAfter 0 (serviceUnavailable "Upstream circuit half-open")))) = None
  /\ retryAfter (addEvent (Rejected undefinedHttpErrors)) = None.
Proof.
  split.
  - destruct (addEvent_drops_zero_hint (fastify := withSensible) (always 36400) []
                (mkBreaker HALF_OPEN [] 30015 36000 true))
      as (e & Hup & Hplugin & _).
    + reflexivity.
    + reflexivity.
    + unfold always. cbn. lia.
    + destruct (Hplugin eq_refl) as (_ & _ & Hreply).
      vm_compute in Hup. injection Hup as <-.
      apply (f_equal retryAfter) in Hreply. exact Hreply.
  - destruct (addEvent_drops_zero_hint (fastify := indexFastify) (always 36400) []
                (mkBreaker HALF_OPEN [] 30015 36000 true))
      as (e & Hup & _ & Hwired).
    + reflexivity.
    + reflexivity.
    + unfold always. cbn. lia.
    + destruct (Hwired eq_refl) as (-> & Hreply).
      apply (f_equal retryAfter) in Hreply. exact Hreply.
Defined.

End AddEvent.

End HandlersSpec.

(** * Properties of [scripts/seed-events.js] *)

Module SeedSpec.
Import Js Routes Seed.
Local Open Scope Z_scope.

(** ** [generateEvents] *)

Lemma generateFrom_seq fuel : forall i count,
  (Z.to_nat (count - i + 1) <= fuel)%nat ->
  generateFrom fuel i count
  = List.map (fun j => seedEvent (i + Z.of_nat j)) (seq 0 (Z.to_nat (count - i + 1))).
Proof.
  induction fuel as [| fuel IH]; intros i count Hfuel; cbn [generateFrom].
  - replace (Z.to_nat (count - i + 1)) with 0%nat by lia. reflexivity.
  - destruct (i <=? count) eqn:Hle.
    + apply Z.leb_le in Hle. rewrite IH by lia.
      replace (Z.to_nat (count - i + 1)) with (S (Z.to_nat (count - (i + 1) + 1))) by lia.
      cbn [seq List.map]. rewrite Z.add_0_r. f_equal.
      rewrite <- seq_shift, List.map_map. apply List.map_ext. intros j. f_equal. lia.
    + apply Z.leb_gt in Hle.
      replace (Z.to_nat (count - i + 1)) with 0%nat by lia. reflexivity.
Qed.

Lemma generateEvents_seq count :
  generateEvents count
  = List.map (fun j => seedEvent (1 + Z.of_nat j)) (seq 0 (Z.to_nat count)).
Proof.
  unfold generateEvents. rewrite generateFrom_seq by lia.
  replace (count - 1 + 1) with count by lia. reflexivity.
Qed.

Lemma seedEvent_userId i :
  1 <= i -> userId (seedEvent i) = Some (1 + (i - 1) mod 3).
Proof.
  intros Hi. unfold seedEvent, users. cbn [userId length].
  rewrite Z.rem_mod_nonneg by lia.
  pose proof (Z.mod_pos_bound (i - 1) 3 ltac:(lia)) as Hb.
  change (Z.of_nat 3) with 3.
  assert (Hm : (i - 1) mod 3 = 0 \/ (i - 1) mod 3 = 1 \/ (i - 1) mod 3 = 2) by lia.
  destruct Hm as [-> | [-> | ->]]; reflexivity.
Qed.

(** X15: [generateEvents(count)] yields [count] events, none when [count] is
    zero or negative; the event at position [k] (from 0) is number [k + 1],
    named after it, for the user [1 + k mod 3]: the users 1, 2, 3 in
    turn. *)
Theorem generateEvents_round_robin (count : Z) (k : nat) :
  length (generateEvents count) = Z.to_nat count
  /\ ((k < Z.to_nat count)%nat ->
      exists ev,
        generateEvents count !! k = Some ev
        /\ userId ev = Some (1 + Z.of_nat k mod 3)
        /\ name ev = ("Seeded Event " ++ pretty (Z.of_nat k + 1))%string
        /\ details ev
           = ("Auto-generated event #" ++ pretty (Z.of_nat k + 1)
              ++ " for user " ++ pretty (1 + Z.of_nat k mod 3))%string).
Proof.
  rewrite generateEvents_seq. split.
  - rewrite List.length_map, length_seq. reflexivity.
  - intros Hk. exists (seedEvent (1 + Z.of_nat k)).
    assert (Hu : userId (seedEvent (1 + Z.of_nat k)) = Some (1 + Z.of_nat k mod 3)).
    { rewrite seedEvent_userId by lia. do 3 f_equal. lia. }
    split_and!.
    + change (List.map ?f ?l) with (f <$> l).
      rewrite list_lookup_fmap, lookup_seq_lt by exact Hk. reflexivity.
    + exact Hu.
    + cbn. do 2 f_equal. lia.
    + unfold seedEvent in Hu |- *. cbn [userId details] in *. rewrite Hu. cbn.
      replace (1 + Z.of_nat k) with (Z.of_nat k + 1) by lia. reflexivity.
Qed.

(** The fifth of seven events. *)
Lemma generateEvents_round_robin_witness :
  generateEvents 7 !! 4%nat
  = Some (mkSeedEvent (Some 2) "Seeded Event 5" "Auto-generated event #5 for user 2").
Proof.
  destruct (generateEvents_round_robin 7 4) as [_ H].
  destruct H as (ev & Hev & _); [vm_compute; lia |].
  rewrite Hev. vm_compute in Hev. injection Hev as <-. reflexivity.
Defined.

Lemma eventsFor_seq u (n : nat) :
  1 <= u <= 3 ->
  Z.of_nat (eventsFor u (List.map (fun j => seedEvent (1 + Z.of_nat j)) (seq 0 n)))
  = (Z.of_nat n + 3 - u) / 3.
Proof.
  intros Hu. induction n as [| n IH].
  - cbn. symmetry. apply Z.div_small. lia.
  - rewrite seq_S, List.map_app. unfold eventsFor in *.
    rewrite List.filter_app, length_app, Nat2Z.inj_add, IH. cbn [List.map List.filter Nat.add].
    rewrite seedEvent_userId by lia.
    replace (1 + Z.of_nat n - 1) with (Z.of_nat n) by lia.
    pose proof (Z.mod_pos_bound (Z.of_nat n) 3 ltac:(lia)) as Hb.
    destruct (1 + Z.of_nat n mod 3 =? u) eqn:Heq; cbn [length];
      [apply Z.eqb_eq in Heq | apply Z.eqb_neq in Heq];
      Z.div_mod_to_equations; lia.
Qed.

(** X16: the events are spread evenly: of [count] events, user [u] (1, 2 or 3)
    gets [floor((count + 3 - u) / 3)], so no user gets more than one event
    more than another. *)
Theorem generateEvents_balanced (count u u' : Z) :
  0 <= count -> 1 <= u <= 3 -> 1 <= u' <= 3 ->
  Z.of_nat (eventsFor u (generateEvents count)) = (count + 3 - u) / 3
  /\ Z.abs (Z.of_nat (eventsFor u (generateEvents count))
            - Z.of_nat (eventsFor u' (generateEvents count))) <= 1.
Proof.
  intros Hc Hu Hu'. rewrite generateEvents_seq, !eventsFor_seq by assumption.
  rewrite Z2Nat.id by exact Hc. split; [reflexivity |].
  Z.div_mod_to_equations. lia.
Qed.

(** The 25 events of the default [SEED_COUNT]: 9 for user 1. *)
Lemma generateEvents_balanced_witness :
  Z.of_nat (eventsFor 1 (generateEvents 25)) = 9.
Proof.
  apply (generateEvents_balanced 25 1 2); lia.
Defined.

(** ** [postWithRetry] *)

Import Upstream UpstreamCalls.

Lemma postLoop_effects maxRetries backoffBase attempts : forall attempt r es,
  1 <= attempt ->
  postLoop maxRetries backoffBase attempt attempts = (r, es) ->
  Z.of_nat (fetches es) <= Z.max 0 (maxRetries + 2 - attempt)
  /\ (attempt <= maxRetries + 1 -> (1 <= fetches es)%nat)
  /\ sleeps es
     = List.map (fun k => backoffBase * 2 ^ (attempt - 1 + Z.of_nat k))
         (seq 0 (pred (fetches es))).
Proof.
  induction attempts as [| a rest IH]; intros attempt r es Hpos; cbn [postLoop].
  - destruct (attempt <=? maxRetries + 1) eqn:Hle; intros [= <- <-]; cbn;
      split_and!; try reflexivity; lia.
  - destruct (attempt <=? maxRetries + 1) eqn:Hle;
      [| intros [= <- <-]; cbn; split_and!; try reflexivity; lia].
    apply Z.leb_le in Hle.
    destruct (attempted a) as [v | err];
      [intros [= <- <-]; cbn; split_and!; try reflexivity; lia |].
    destruct (negb (transient err) || (maxRetries <? attempt)) eqn:Hfin;
      [intros [= <- <-]; cbn; split_and!; try reflexivity; lia |].
    apply orb_false_iff in Hfin. destruct Hfin as [_ Hlast]. apply Z.ltb_ge in Hlast.
    destruct (postLoop maxRetries backoffBase (attempt + 1) rest) as [r' es'] eqn:Hrec.
    intros [= <- <-].
    destruct (IH (attempt + 1) r' es' ltac:(lia) Hrec) as (Hbound & Hone & Hsleeps).
    specialize (Hone ltac:(lia)).
    change (fetches (Fetch attempt :: Sleep (backoffBase * 2 ^ (attempt - 1)) :: es'))
      with (S (fetches es')).
    change (sleeps (Fetch attempt :: Sleep (backoffBase * 2 ^ (attempt - 1)) :: es'))
      with (backoffBase * 2 ^ (attempt - 1) :: sleeps es').
    split_and!; [lia | lia |].
    cbn [pred]. destruct (fetches es') as [| f] eqn:Hf; [lia |].
    cbn [seq List.map pred] in *. rewrite Z.add_0_r. f_equal.
    rewrite Hsleeps, <- seq_shift, List.map_map.
    apply List.map_ext. intros k. do 2 f_equal. lia.
Qed.

(** X17: [postWithRetry] fetches at most [MAX_RETRIES + 1] times (not at all
    when that is zero or negative), and between two fetches it sleeps
    [BACKOFF_BASE_MS * 2^k], [k] being 0 for the first sleep, 1 for the
    second, and so on. *)
Theorem post_attempts_and_backoff (maxRetries backoffBase : Z) (attempts : list Attempt) :
  let es := snd (postWithRetry maxRetries backoffBase attempts) in
  Z.of_nat (fetches es) <= Z.max 0 (maxRetries + 1)
  /\ sleeps es
     = List.map (fun k => backoffBase * 2 ^ Z.of_nat k) (seq 0 (pred (fetches es))).
Proof.
  unfold postWithRetry.
  destruct (postLoop maxRetries backoffBase 1 attempts) as [r es] eqn:Hrun. cbn [snd].
  destruct (postLoop_effects _ _ _ 1 r es ltac:(lia) Hrun) as (Hbound & _ & Hsleeps).
  split; [lia |]. rewrite Hsleeps. apply List.map_ext. intros k. do 2 f_equal.
Qed.

Lemma postLoop_settlement maxRetries backoffBase attempts : forall attempt r es,
  postLoop maxRetries backoffBase attempt attempts = (r, es) ->
  match r with
  | Rejects err =>
    (exists a, In a attempts /\ attempted a = inr err)
    /\ (transient err = false
        \/ Z.of_nat (fetches es) = maxRetries + 2 - attempt)
  | Resolves v =>
    (maxRetries + 1 < attempt /\ v = VUndefined /\ es = [])
    \/ (exists a, In a attempts /\ attempted a = inl v)
  | Waiting => True
  end.
Proof.
  induction attempts as [| a rest IH]; intros attempt r es; cbn [postLoop].
  - destruct (attempt <=? maxRetries + 1) eqn:Hle; intros [= <- <-]; [exact I |].
    left. apply Z.leb_gt in Hle. auto.
  - destruct (attempt <=? maxRetries + 1) eqn:Hle;
      [| intros [= <- <-]; left; apply Z.leb_gt in Hle; auto].
    apply Z.leb_le in Hle.
    destruct (attempted a) as [v | err] eqn:Ha.
    { intros [= <- <-]. right. exists a. split; [left; reflexivity | exact Ha]. }
    destruct (negb (transient err) || (maxRetries <? attempt)) eqn:Hfin.
    { intros [= <- <-]. split; [exists a; split; [left; reflexivity | exact Ha] |].
      apply orb_true_iff in Hfin. destruct Hfin as [Hnt | Hlast].
      - left. destruct (transient err); [discriminate Hnt | reflexivity].
      - right. apply Z.ltb_lt in Hlast. cbn. lia. }
    apply orb_false_iff in Hfin. destruct Hfin as [_ Hlast]. apply Z.ltb_ge in Hlast.
    destruct (postLoop maxRetries backoffBase (attempt + 1) rest) as [r' es'] eqn:Hrec.
    intros [= <- <-]. specialize (IH (attempt + 1) r' es' Hrec).
    destruct r' as [v | err' |]; [| | exact I].
    + right. destruct IH as [(Hlt & _) | (a' & Hin & Ha')]; [lia |].
      exists a'. split; [right; exact Hin | exact Ha'].
    + destruct IH as ((a' & Hin & Ha') & Hwhy).
      split; [exists a'; split; [right; exact Hin | exact Ha'] |].
      destruct Hwhy as [Hnt | Hf]; [left; exact Hnt | right].
      change (fetches (Fetch attempt :: Sleep (backoffBase * 2 ^ (attempt - 1)) :: es'))
        with (S (fetches es')). lia.
Qed.

(** X18: what [postWithRetry] settles with.  It rejects with the very error of
    one of its attempts, status code included, and only when that error is
    not transient or [MAX_RETRIES + 1] fetches have been made.  It resolves
    with the parsed body of a response, or, when [MAX_RETRIES] is negative,
    with [undefined] without having fetched at all. *)
Theorem post_settlement (maxRetries backoffBase : Z) (attempts : list Attempt) r es :
  postWithRetry maxRetries backoffBase attempts = (r, es) ->
  match r with
  | Rejects err =>
    (exists a, In a attempts /\ attempted a = inr err)
    /\ (transient err = false \/ Z.of_nat (fetches es) = maxRetries + 1)
  | Resolves v =>
    (maxRetries < 0 /\ v = VUndefined /\ es = [])
    \/ (exists a, In a attempts /\ attempted a = inl v)
  | Waiting => True
  end.
Proof.
  intros Hrun. apply postLoop_settlement in Hrun.
  destruct r as [v | err |]; [| | exact I].
  - destruct Hrun as [(Hlt & Hv & Hes) | H]; [left; split_and!; auto; lia | right; exact H].
  - destruct Hrun as (Ha & [Hnt | Hf]); (split; [exact Ha |]); [left; exact Hnt | right; lia].
Qed.

(** With the defaults, a [400] answer is rejected at once, with the
    error that carries the status code 400. *)
Lemma post_settlement_witness :
  let err := {| Js.name := "Error"; statusCode := Some 400;
                message := "HTTP 400"; headers := [] |} in
  (exists a, In a [Responds 400 None] /\ attempted a = inr err)
  /\ (transient err = false \/ Z.of_nat (fetches [Fetch 1]) = 2 + 1).
Proof.
  intros err.
  apply (post_settlement 2 150 [Responds 400 None] (Rejects err) [Fetch 1]).
  vm_compute. reflexivity.
Defined.

(** ** [waitUntilReady] *)

Lemma waitLoop_backoff deadline script : forall attempt r zs,
  0 <= attempt ->
  waitLoop deadline attempt script = (r, zs) ->
  zs = List.map (fun k => Z.min (200 * (attempt + Z.of_nat k + 1)) 1000) (seq 0 (length zs))
  /\ (r = Ready ->
      exists t, script !! length zs = Some (t, true) /\ t < deadline)
  /\ (forall n, r = NotReady n ->
      n = attempt + Z.of_nat (length zs)
      /\ exists t ok, script !! length zs = Some (t, ok) /\ deadline <= t)
  /\ (r = Probing -> length zs = length script).
Proof.
  induction script as [| [t ok] rest IH]; intros attempt r zs Hpos; cbn [waitLoop].
  - intros [= <- <-]. cbn. split_and!; try discriminate; reflexivity.
  - destruct (t <? deadline) eqn:Hlt.
    + apply Z.ltb_lt in Hlt. destruct ok.
      * intros [= <- <-]. cbn. split_and!; try discriminate; eauto.
      * destruct (waitLoop deadline (attempt + 1) rest) as [r' zs'] eqn:Hrec.
        intros [= <- <-].
        destruct (IH (attempt + 1) r' zs' ltac:(lia) Hrec) as (Hzs & Hready & Hnot & Hprob).
        split_and!.
        -- cbn [length seq List.map]. rewrite Z.add_0_r. f_equal.
           rewrite Hzs at 1. rewrite <- seq_shift, List.map_map.
           apply List.map_ext. intros k. do 2 f_equal. lia.
        -- intros Hr. cbn. apply Hready, Hr.
        -- intros n Hr. destruct (Hnot n Hr) as (Hn & Hscript). cbn. split; [lia | exact Hscript].
        -- intros Hr. cbn. f_equal. apply Hprob, Hr.
    + apply Z.ltb_ge in Hlt. intros [= <- <-]. cbn.
      split_and!; try discriminate; [reflexivity |].
      intros n [= <-]. split; [lia |]. eauto.
Qed.

(** X19: [waitUntilReady] sleeps 200, 400, 600, 800 and then 1000 ms after
    each probe that is not ok.  It returns only right after an ok probe
    made before the deadline; it throws only at a loop test at or after
    the deadline, and the number of tries it reports is the number of
    probes made. *)
Theorem waitUntilReady_backoff (now timeoutMs : Z) (script : list (Z * bool)) r zs :
  waitUntilReady now timeoutMs script = (r, zs) ->
  zs = List.map (fun k => Z.min (200 * (Z.of_nat k + 1)) 1000) (seq 0 (length zs))
  /\ Forall (fun z => 200 <= z <= 1000) zs
  /\ (r = Ready ->
      exists t, script !! length zs = Some (t, true) /\ t < now + timeoutMs)
  /\ (forall n, r = NotReady n ->
      n = Z.of_nat (length zs)
      /\ exists t ok, script !! length zs = Some (t, ok) /\ now + timeoutMs <= t).
Proof.
  intros Hrun.
  destruct (waitLoop_backoff _ _ 0 r zs ltac:(lia) Hrun) as (Hzs & Hready & Hnot & _).
  assert (Hzs' : zs = List.map (fun k => Z.min (200 * (Z.of_nat k + 1)) 1000)
                        (seq 0 (length zs))).
  { rewrite Hzs at 1. apply List.map_ext. intros k. do 2 f_equal. }
  split_and!.
  - exact Hzs'.
  - rewrite Hzs'. apply List.Forall_forall. intros z Hz.
    apply List.in_map_iff in Hz. destruct Hz as (k & <- & _). lia.
  - exact Hready.
  - intros n Hn. destruct (Hnot n Hn) as (-> & H). split; [lia | exact H].
Qed.

(** Called at 0 ms with the default timeout: six probes that are not ok,
    then the loop test at 5100 ms. *)
Lemma waitUntilReady_backoff_witness :
  let script := [(0, false); (300, false); (800, false); (1500, false);
                 (2400, false); (3500, false); (5100, false)] in
  waitUntilReady 0 5000 script = (NotReady 6, [200; 400; 600; 800; 1000; 1000])
  /\ exists t ok, script !! 6%nat = Some (t, ok) /\ 0 + 5000 <= t.
Proof.
  intros script.
  assert (Hrun : waitUntilReady 0 5000 script
                 = (NotReady 6, [200; 400; 600; 800; 1000; 1000])).
  { vm_compute. reflexivity. }
  split; [exact Hrun |].
  destruct (waitUntilReady_backoff 0 5000 script _ _ Hrun) as (_ & _ & _ & Hnot).
  destruct (Hnot 6 eq_refl) as (_ & H). exact H.
Defined.

(** ** [runQueue] *)

Lemma countSlot_nonneg s l : 0 <= countSlot s l.
Proof. unfold countSlot. lia. Qed.

Lemma countSlot_app s l l' : countSlot s (l ++ l') = countSlot s l + countSlot s l'.
Proof. unfold countSlot. rewrite List.filter_app, length_app. lia. Qed.

Lemma countSlot_repeat s k :
  countSlot s (repeat Running k) = if Slot_eqb s Running then Z.of_nat k else 0.
Proof.
  unfold countSlot. induction k as [| k IH]; cbn [repeat List.filter].
  - destruct (Slot_eqb s Running); reflexivity.
  - destruct (Slot_eqb s Running); cbn [length]; lia.
Qed.

Lemma countSlot_total l :
  countSlot Running l + countSlot Settled l + countSlot Finished l = Z.of_nat (length l).
Proof.
  unfold countSlot. induction l as [| x l IH]; [reflexivity |].
  destruct x; cbn [List.filter Slot_eqb length]; lia.
Qed.

Lemma countSlot_insert s (l : list Slot) i x y :
  l !! i = Some x ->
  countSlot s (<[i := y]> l)
  = countSlot s l - (if Slot_eqb s x then 1 else 0) + (if Slot_eqb s y then 1 else 0).
Proof.
  unfold countSlot. revert i. induction l as [| z l IH]; intros i Hi; [discriminate Hi |].
  destruct i as [| i]; cbn in Hi.
  - injection Hi as ->. cbn [List.filter].
    change (<[0%nat := y]> (x :: l)) with (y :: l). cbn [List.filter].
    destruct (Slot_eqb s x), (Slot_eqb s y); cbn [length]; lia.
  - change (<[S i := y]> (z :: l)) with (z :: <[i := y]> l). cbn [List.filter].
    specialize (IH i Hi).
    destruct (Slot_eqb s z); cbn [length]; lia.
Qed.

Lemma countSlot_lookup (l : list Slot) i x : l !! i = Some x -> 1 <= countSlot x l.
Proof.
  unfold countSlot. revert i. induction l as [| z l IH]; intros i Hi; [discriminate Hi |].
  destruct i as [| i]; cbn in Hi.
  - injection Hi as ->. cbn [List.filter].
    replace (Slot_eqb x x) with true by (destruct x; reflexivity). cbn [length]. lia.
  - specialize (IH i Hi). cbn [List.filter]. destruct (Slot_eqb x z); cbn [length]; lia.
Qed.

Section RunQueue.
Variable len : nat.
Variable concurrency : Z.

(** What the [while] loop of [next] does: it starts [k] workers, up to
    the end of the items or to [concurrency] workers in flight. *)
Lemma startWorkers_spec fuel : forall q,
  (len - idx q <= fuel)%nat -> (idx q <= len)%nat ->
  exists k : nat,
    startWorkers fuel len concurrency q
    = mkQueue (inFlight q + Z.of_nat k) (idx q + k) (ok q) (fail q) (results q)
        (slots q ++ repeat Running k) (resolved q)
    /\ (idx q + k <= len)%nat
    /\ ((0 < k)%nat -> inFlight q + Z.of_nat k <= concurrency)
    /\ ((idx q + k)%nat = len \/ concurrency <= inFlight q + Z.of_nat k).
Proof.
  induction fuel as [| fuel IH]; intros q Hfuel Hidx; cbn [startWorkers].
  - exists 0%nat. cbn [repeat]. rewrite app_nil_r, Z.add_0_r, Nat.add_0_r.
    destruct q; cbn in *. split_and!; [reflexivity | lia | lia | left; lia].
  - destruct ((inFlight q <? concurrency) && (idx q <? len)%nat) eqn:Hc.
    + apply andb_true_iff in Hc. destruct Hc as [Hin Hlt].
      apply Z.ltb_lt in Hin. apply Nat.ltb_lt in Hlt.
      destruct (IH (mkQueue (inFlight q + 1) (S (idx q)) (ok q) (fail q) (results q)
                      (slots q ++ [Running]) (resolved q)))
        as (k & Heq & Hle & Hcap & Hfull); cbn [idx inFlight] in *; [lia | lia |].
      exists (S k). rewrite Heq. cbn [ok fail results slots resolved inFlight idx].
      split_and!.
      * f_equal; [lia | lia |]. rewrite <- app_assoc. reflexivity.
      * lia.
      * intros _. destruct k as [| k]; [lia |]. specialize (Hcap ltac:(lia)). lia.
      * destruct Hfull as [Hfull | Hfull]; [left | right]; lia.
    + exists 0%nat. cbn [repeat]. rewrite app_nil_r, Z.add_0_r, Nat.add_0_r.
      apply andb_false_iff in Hc.
      destruct q; cbn in *. split_and!; [reflexivity | lia | lia |].
      destruct Hc as [Hc | Hc]; [right; lia | left].
      apply Nat.ltb_ge in Hc. lia.
Qed.

Lemma next_invariant q :
  queueCore len concurrency q ->
  queueInvariant len concurrency (next len concurrency q)
  /\ callbacksLeft len (next len concurrency q) = callbacksLeft len q.
Proof.
  intros (Hidx & Hle & Hin & Hok & Hok0 & Hfail0 & Hcap & Hres & Hresults).
  pose proof (countSlot_nonneg Running (slots q)) as HR.
  pose proof (countSlot_nonneg Settled (slots q)) as HS.
  unfold next.
  destruct ((len <=? idx q)%nat && (inFlight q =? 0)) eqn:Hc.
  - apply andb_true_iff in Hc. destruct Hc as [Hlen H0].
    apply Nat.leb_le in Hlen. apply Z.eqb_eq in H0.
    split; [| reflexivity].
    unfold queueInvariant, queueCore. cbn [idx inFlight ok fail results slots resolved].
    split_and!; try assumption; try lia.
    + intros o f Ho. destruct (resolved q) as [[o' f'] |] eqn:Hr.
      * injection Ho as <- <-. apply (Hres o' f' eq_refl).
      * injection Ho as <- <-. split_and!; [reflexivity | reflexivity | lia | exact H0].
    + intros _ _. destruct (resolved q); eauto.
  - assert (Hnone : resolved q = None).
    { destruct (resolved q) as [[o f] |] eqn:Hr; [| reflexivity].
      destruct (Hres o f eq_refl) as (_ & _ & Hl & H0).
      apply andb_false_iff in Hc. destruct Hc as [Hc | Hc];
        [apply Nat.leb_gt in Hc; lia | apply Z.eqb_neq in Hc; lia]. }
    destruct (startWorkers_spec (len - idx q) q ltac:(lia) Hle)
      as (k & -> & Hk & Hkcap & Hfull).
    split.
    + unfold queueInvariant, queueCore. cbn [idx inFlight ok fail results slots resolved].
      rewrite !countSlot_app, !countSlot_repeat, length_app, repeat_length. cbn [Slot_eqb].
      split_and!; try lia.
      * intros o f Ho. rewrite Hnone in Ho. discriminate Ho.
      * intros i s Hi Hs. apply lookup_app_Some in Hi.
        destruct Hi as [Hi | [_ Hi]]; [exact (Hresults i s Hi Hs) |].
        apply list_elem_of_lookup_2, list_elem_of_In, repeat_spec in Hi. congruence.
      * intros Hl H0. exfalso.
        apply andb_false_iff in Hc. destruct Hc as [Hc | Hc];
          [apply Nat.leb_gt in Hc; lia | apply Z.eqb_neq in Hc; lia].
    + unfold callbacksLeft. cbn [idx slots].
      rewrite !countSlot_app, !countSlot_repeat. cbn [Slot_eqb]. lia.
Qed.

Lemma queueStep_invariant ev q q' :
  queueInvariant len concurrency q ->
  queueStep len concurrency ev q = Some q' ->
  queueInvariant len concurrency q'
  /\ callbacksLeft len q' = callbacksLeft len q - 1.
Proof.
  intros ((Hidx & Hle & Hin & Hok & Hok0 & Hfail0 & Hcap & Hres & Hresults) & Hfull & Hdone).
  pose proof (countSlot_nonneg Running (slots q)) as HR.
  pose proof (countSlot_nonneg Settled (slots q)) as HS.
  destruct ev as [i o | i]; cbn [queueStep].
  - destruct (slots q !! i) as [[| |] |] eqn:Hi; try discriminate.
    intros [= <-].
    pose proof (countSlot_lookup _ _ _ Hi) as Hone.
    assert (Hnone : resolved q = None).
    { destruct (resolved q) as [[o' f'] |] eqn:Hr; [| reflexivity].
      destruct (Hres o' f' eq_refl) as (_ & _ & _ & H0). lia. }
    split.
    + unfold queueInvariant, queueCore. cbn [idx inFlight ok fail results slots resolved].
      rewrite !(countSlot_insert _ _ _ _ _ Hi), length_insert. cbn [Slot_eqb].
      split_and!; try assumption; try lia; try (destruct o; lia).
      * intros o' f' Ho. rewrite Hnone in Ho. discriminate Ho.
      * intros j s Hj Hs. destruct (decide (i = j)) as [<- | Hne].
        -- rewrite lookup_insert_eq. eauto.
        -- rewrite lookup_insert_ne by exact Hne.
           rewrite list_lookup_insert_ne in Hj by exact Hne. exact (Hresults j s Hj Hs).
    + unfold callbacksLeft. cbn [idx slots].
      rewrite !(countSlot_insert _ _ _ _ _ Hi). cbn [Slot_eqb]. lia.
  - destruct (slots q !! i) as [[| |] |] eqn:Hi; try discriminate.
    intros [= <-].
    pose proof (countSlot_lookup _ _ _ Hi) as Hone.
    assert (Hnone : resolved q = None).
    { destruct (resolved q) as [[o' f'] |] eqn:Hr; [| reflexivity].
      destruct (Hres o' f' eq_refl) as (_ & _ & _ & H0). lia. }
    match goal with
    | |- context [next len concurrency ?q1] =>
      destruct (next_invariant q1) as [Hinv Hleft]
    end.
    + unfold queueCore. cbn [idx inFlight ok fail results slots resolved].
      rewrite !(countSlot_insert _ _ _ _ _ Hi), length_insert. cbn [Slot_eqb].
      split_and!; try assumption; try lia.
      * intros o' f' Ho. rewrite Hnone in Ho. discriminate Ho.
      * intros j s Hj Hs. destruct (decide (i = j)) as [<- | Hne].
        -- apply (Hresults i Settled Hi). discriminate.
        -- rewrite list_lookup_insert_ne in Hj by exact Hne. exact (Hresults j s Hj Hs).
    + split; [exact Hinv |]. rewrite Hleft.
      unfold callbacksLeft. cbn [idx slots].
      rewrite !(countSlot_insert _ _ _ _ _ Hi). cbn [Slot_eqb]. lia.
Qed.

Lemma queueExec_invariant evs : forall q q',
  queueInvariant len concurrency q ->
  queueExec len concurrency evs q = Some q' ->
  queueInvariant len concurrency q'
  /\ callbacksLeft len q' = callbacksLeft len q - Z.of_nat (length evs).
Proof.
  induction evs as [| ev evs IH]; intros q q' Hinv; cbn [queueExec].
  - intros [= <-]. split; [exact Hinv | cbn; lia].
  - destruct (queueStep len concurrency ev q) as [q1 |] eqn:Hstep; [| discriminate].
    intros Hexec.
    destruct (queueStep_invariant _ _ _ Hinv Hstep) as [Hinv1 Hleft1].
    destruct (IH _ _ Hinv1 Hexec) as [Hinv' Hleft'].
    split; [exact Hinv' |]. rewrite Hleft', Hleft1, length_cons. lia.
Qed.

Lemma runQueue_invariant :
  1 <= concurrency ->
  queueInvariant len concurrency (runQueue len concurrency)
  /\ callbacksLeft len (runQueue len concurrency) = 2 * Z.of_nat len.
Proof.
  intros Hpos. unfold runQueue.
  match goal with
  | |- context [next len concurrency ?q0] =>
    destruct (next_invariant q0) as [Hinv Hleft]
  end.
  - unfold queueCore. cbn. split_and!; try reflexivity; try lia.
    + intros o f Ho. discriminate Ho.
    + intros i s Hi. discriminate Hi.
  - split; [exact Hinv |]. rewrite Hleft.
    unfold callbacksLeft, countSlot. cbn [idx slots List.filter length]. lia.
Qed.

End RunQueue.

(** X20: with a concurrency of at least 1, whatever the order in which the
    callbacks of the workers run: there are never more than [concurrency]
    workers in flight, and exactly [concurrency] as long as there are items
    not started yet; and every item started is in flight or counted in
    [ok] or [fail], none twice. *)
Theorem runQueue_pool_bounded (len : nat) (concurrency : Z)
  (evs : list QueueEvent) (q : Queue) :
  1 <= concurrency ->
  queueExec len concurrency evs (runQueue len concurrency) = Some q ->
  0 <= inFlight q <= concurrency
  /\ ((idx q < len)%nat -> inFlight q = concurrency)
  /\ (idx q <= len)%nat
  /\ Z.of_nat (idx q) - inFlight q <= ok q + fail q <= Z.of_nat (idx q).
Proof.
  intros Hpos Hexec.
  destruct (runQueue_invariant len concurrency Hpos) as [Hinv0 _].
  destruct (queueExec_invariant len concurrency evs _ _ Hinv0 Hexec)
    as [((Hidx & Hle & Hin & Hok & _ & _ & Hcap & _) & Hfull & _) _].
  pose proof (countSlot_nonneg Running (slots q)).
  pose proof (countSlot_nonneg Settled (slots q)).
  pose proof (countSlot_total (slots q)).
  split_and!; try assumption; lia.
Qed.

(** Five items, two at a time: the first worker has settled and run its
    [finally], so the third was started. *)
Lemma runQueue_pool_bounded_witness :
  inFlight (default (runQueue 5 2)
              (queueExec 5 2 [Settle 0 (Fulfilled VNull); Finalize 0] (runQueue 5 2)))
  = 2.
Proof.
  destruct (runQueue_pool_bounded 5 2 [Settle 0 (Fulfilled VNull); Finalize 0]
              (default (runQueue 5 2)
                 (queueExec 5 2 [Settle 0 (Fulfilled VNull); Finalize 0] (runQueue 5 2))))
    as (_ & Hfull & _).
  - lia.
  - vm_compute. reflexivity.
  - apply Hfull. vm_compute. lia.
Defined.

(** X21: with a concurrency of at least 1 the queue takes exactly two
    callbacks per item: no run has more, and the promise is resolved when,
    and only when, all of them have run.  It is resolved with [ok] and
    [fail] adding up to the number of items, and [results] then has an
    entry at every index. *)
Theorem runQueue_completes (len : nat) (concurrency : Z)
  (evs : list QueueEvent) (q : Queue) :
  1 <= concurrency ->
  queueExec len concurrency evs (runQueue len concurrency) = Some q ->
  (length evs <= 2 * len)%nat
  /\ (is_Some (resolved q) <-> length evs = (2 * len)%nat)
  /\ (length evs = (2 * len)%nat ->
      resolved q = Some (ok q, fail q)
      /\ ok q + fail q = Z.of_nat len
      /\ forall i, (i < len)%nat -> is_Some (results q !! i)).
Proof.
  intros Hpos Hexec.
  destruct (runQueue_invariant len concurrency Hpos) as [Hinv0 Hleft0].
  destruct (queueExec_invariant len concurrency evs _ _ Hinv0 Hexec)
    as [((Hidx & Hle & Hin & Hok & _ & _ & _ & Hres & Hresults) & _ & Hdone) Hleft].
  rewrite Hleft0 in Hleft. unfold callbacksLeft in Hleft.
  pose proof (countSlot_nonneg Running (slots q)) as HR.
  pose proof (countSlot_nonneg Settled (slots q)) as HS.
  pose proof (countSlot_total (slots q)) as Htot.
  assert (Hall : length evs = (2 * len)%nat ->
            idx q = len /\ countSlot Running (slots q) = 0 /\ inFlight q = 0) by lia.
  split_and!.
  - lia.
  - split.
    + intros [[o f] Hr]. destruct (Hres o f Hr) as (_ & _ & Hl & H0). lia.
    + intros Hlen. destruct (Hall Hlen) as (Hl & _ & H0). exact (Hdone Hl H0).
  - intros Hlen. destruct (Hall Hlen) as (Hl & HR0 & H0).
    destruct (Hdone Hl H0) as [[o f] Hr].
    destruct (Hres o f Hr) as (-> & -> & _).
    split_and!; [exact Hr | lia |].
    intros i Hi.
    destruct (lookup_lt_is_Some_2 (slots q) i ltac:(lia)) as [s Hs].
    apply (Hresults i s Hs). intros ->.
    pose proof (countSlot_lookup _ _ _ Hs). lia.
Qed.

(** Three items, two at a time; the second worker fails. *)
Lemma runQueue_completes_witness :
  resolved (default (runQueue 3 2)
    (queueExec 3 2
       [Settle 0 (Fulfilled (VNum 1)); Settle 1 (Rejected Routes.finalFailure);
        Finalize 1; Finalize 0; Settle 2 (Fulfilled (VNum 3)); Finalize 2]
       (runQueue 3 2)))
  = Some (2, 1).
Proof.
  pose (evs := [Settle 0 (Fulfilled (VNum 1)); Settle 1 (Rejected Routes.finalFailure);
                Finalize 1; Finalize 0; Settle 2 (Fulfilled (VNum 3)); Finalize 2]).
  pose (q := default (runQueue 3 2) (queueExec 3 2 evs (runQueue 3 2))).
  destruct (runQueue_completes 3 2 evs q) as (_ & _ & Hend).
  - lia.
  - vm_compute. reflexivity.
  - destruct (Hend eq_refl) as (Hr & _).
    change (resolved q = Some (2, 1)). rewrite Hr. vm_compute. reflexivity.
Defined.

(** X22: with a concurrency of zero or less and at least one item, [runQueue]
    starts no worker and never resolves its promise: no callback can ever
    run. *)
Theorem runQueue_stalls (len : nat) (concurrency : Z) (ev : QueueEvent) :
  concurrency <= 0 -> (0 < len)%nat ->
  runQueue len concurrency = mkQueue 0 0 0 0 ∅ [] None
  /\ queueStep len concurrency ev (runQueue len concurrency) = None.
Proof.
  intros Hc Hlen.
  assert (Hrun : runQueue len concurrency = mkQueue 0 0 0 0 ∅ [] None).
  { unfold runQueue, next. cbn [idx inFlight].
    destruct (len <=? 0)%nat eqn:Hle; [apply Nat.leb_le in Hle; lia |].
    cbn [andb]. destruct (len - 0)%nat; [reflexivity |]. cbn [startWorkers inFlight].
    destruct (0 <? concurrency) eqn:Hlt; [lia | reflexivity]. }
  split; [exact Hrun |]. rewrite Hrun. destruct ev; reflexivity.
Qed.

Lemma runQueue_stalls_witness :
  queueStep 25 0 (Settle 0 (Fulfilled VNull)) (runQueue 25 0) = None.
Proof.
  apply (runQueue_stalls 25 0 (Settle 0 (Fulfilled VNull))); lia.
Defined.

End SeedSpec.
